(** * secureio: atomic, hardened file writing

    A shallow embedding of [secureio.go] (package [secureio]) and the
    properties of its write engine: the directory opener, the ancestor
    verifier, the two publish strategies and the dispatcher.

    The Go code talks to the operating system through [golang.org/x/sys/unix]
    and [os.File].  The embedding keeps that boundary: a program is a
    state-passing computation over an arbitrary kernel (the class [Unix]),
    every system call it issues is appended to a trace, and the theorems
    quantify over all kernels.  A small simulated kernel ([Sim]) gives
    concrete runs, and [Faulty] the same kernel with chosen calls failing.
    The last two parts ([Coverage], [CoverageOnSim]) hold further
    properties of the verifier and of the two strategies: what they never
    do, the order of their calls, their cleanup, and termination. *)

From Stdlib Require Import ZArith List String Ascii Strings.Byte Bool Lia DecimalString.
Import ListNotations.

Local Open Scope string_scope.
Local Open Scope Z_scope.

(** ** Constants of [golang.org/x/sys/unix] (linux/amd64) *)

Module unix.
Definition Errno := Z.

Definition EPERM : Errno := 1.
Definition ENOENT : Errno := 2.
Definition EIO : Errno := 5.
Definition EBADF : Errno := 9.
Definition EEXIST : Errno := 17.
Definition EXDEV : Errno := 18.
Definition ENOTDIR : Errno := 20.
Definition EINVAL : Errno := 22.
Definition ENOSPC : Errno := 28.
Definition ENOSYS : Errno := 38.
Definition ELOOP : Errno := 40.
Definition EOPNOTSUPP : Errno := 95.

Definition AT_FDCWD : Z := -100.
Definition AT_EMPTY_PATH : Z := 0x1000.

Definition O_RDONLY : Z := 0x0.
Definition O_WRONLY : Z := 0x1.
Definition O_RDWR : Z := 0x2.
Definition O_CREAT : Z := 0x40.
Definition O_EXCL : Z := 0x80.
Definition O_DIRECTORY : Z := 0x10000.
Definition O_NOFOLLOW : Z := 0x20000.
Definition O_PATH : Z := 0x200000.
Definition O_TMPFILE : Z := 0x410000.

Definition RESOLVE_NO_XDEV : Z := 0x1.
Definition RESOLVE_NO_MAGICLINKS : Z := 0x2.
Definition RESOLVE_NO_SYMLINKS : Z := 0x4.

Definition S_IWOTH : Z := 0x2.
Definition S_ISVTX : Z := 0x200.

(** [unix.OpenHow], the argument block of openat2(2). *)
Record OpenHow := { Flags : Z; Mode : Z; Resolve : Z }.

(** The fields of [unix.Stat_t] the package reads. *)
Record Stat_t := { Uid : Z; Gid : Z; StMode : Z }.
End unix.

(** ** Go [error] values

    A Go [error] is [option error] here, [None] being [nil].  The package
    meets four dynamic types: a bare [unix.Errno]; the result of
    [fmt.Errorf] without [%w]; the result of [fmt.Errorf] with one [%w]
    (which implements [Unwrap]); and [*os.PathError], returned by the
    methods of [os.File] (which implements [Unwrap] too). *)

Inductive error : Type :=
| ErrnoError (e : unix.Errno)
| ErrorString (msg : string)
| WrapError (msg : string) (err : error)
| PathError (op path : string) (err : error).

Definition Unwrap (err : error) : option error :=
  match err with
  | ErrnoError _ => None
  | ErrorString _ => None
  | WrapError _ inner => Some inner
  | PathError _ _ inner => Some inner
  end.

(** [errors.As(err, &errno)] with [errno] of type [unix.Errno]: the first
    error of the chain whose dynamic type is [Errno]. *)
Fixpoint errors_As_Errno (err : error) : option unix.Errno :=
  match err with
  | ErrnoError e => Some e
  | ErrorString _ => None
  | WrapError _ inner => errors_As_Errno inner
  | PathError _ _ inner => errors_As_Errno inner
  end.

(** [errors.Is(err, target)] for a target of type [unix.Errno]: some error
    of the chain equals the target.  ([Errno.Is] only answers for the
    [os.Err...] sentinels, never for another [Errno].) *)
Fixpoint errors_Is_Errno (err : error) (target : unix.Errno) : bool :=
  match err with
  | ErrnoError e => e =? target
  | ErrorString _ => false
  | WrapError _ inner => errors_Is_Errno inner target
  | PathError _ _ inner => errors_Is_Errno inner target
  end.

(** The chain relation behind both: [wraps err e] when [e] is [err] or is
    reached from it by [Unwrap]. *)
Inductive wraps : error -> error -> Prop :=
| wraps_here : forall err, wraps err err
| wraps_step : forall err inner e, Unwrap err = Some inner -> wraps inner e -> wraps err e.

(** ** [path/filepath] on Unix *)

Module filepath.
Definition IsPathSeparator (c : ascii) : bool := Ascii.eqb c "/".

Definition at_ (p : list ascii) (i : nat) : ascii := nth i p "000"%char.

(** [lazybuf] of [path.go]: [w] bytes of [buf] are the output so far. *)
Record lazybuf := { buf : list ascii; w : nat }.

Definition index (b : lazybuf) (i : nat) : ascii := at_ (buf b) i.
Definition append (b : lazybuf) (c : ascii) : lazybuf :=
  {| buf := firstn (w b) (buf b) ++ [c]; w := S (w b) |}.
Definition back (b : lazybuf) : lazybuf := {| buf := buf b; w := pred (w b) |}.
Definition contents (b : lazybuf) : list ascii := firstn (w b) (buf b).

(** [for out.w > dotdot && !os.IsPathSeparator(out.index(out.w)) { out.w-- }] *)
Fixpoint backtrack (fuel : nat) (out : lazybuf) (dotdot : nat) : lazybuf :=
  match fuel with
  | O => out
  | S fuel' =>
      if (dotdot <? w out)%nat && negb (IsPathSeparator (index out (w out)))
      then backtrack fuel' (back out) dotdot
      else out
  end.

(** [for ; r < n && !os.IsPathSeparator(path[r]); r++ { out.append(path[r]) }] *)
Fixpoint copy_element (fuel : nat) (p : list ascii) (r : nat) (out : lazybuf)
  : nat * lazybuf :=
  match fuel with
  | O => (r, out)
  | S fuel' =>
      if (r <? List.length p)%nat && negb (IsPathSeparator (at_ p r))
      then copy_element fuel' p (S r) (append out (at_ p r))
      else (r, out)
  end.

(** The main loop of [Clean]: [r] is the next byte to read, [dotdot] the
    index in the output where [..] must stop. *)
Fixpoint clean_loop (fuel : nat) (p : list ascii) (rooted : bool)
         (r : nat) (out : lazybuf) (dotdot : nat) : lazybuf :=
  match fuel with
  | O => out
  | S fuel' =>
      let n := List.length p in
      if (r <? n)%nat then
        if IsPathSeparator (at_ p r) then
          clean_loop fuel' p rooted (S r) out dotdot
        else if Ascii.eqb (at_ p r) "."
                && ((S r =? n)%nat || IsPathSeparator (at_ p (S r))) then
          clean_loop fuel' p rooted (S r) out dotdot
        else if Ascii.eqb (at_ p r) "." && Ascii.eqb (at_ p (S r)) "."
                && ((r + 2 =? n)%nat || IsPathSeparator (at_ p (r + 2))) then
          if (dotdot <? w out)%nat then
            clean_loop fuel' p rooted (r + 2)
                       (backtrack (w out) (back out) dotdot) dotdot
          else if negb rooted then
            let out1 := if (0 <? w out)%nat then append out "/" else out in
            let out2 := append (append out1 ".") "." in
            clean_loop fuel' p rooted (r + 2) out2 (w out2)
          else
            clean_loop fuel' p rooted (r + 2) out dotdot
        else
          let out1 :=
            if (rooted && negb (w out =? 1)%nat) || (negb rooted && negb (w out =? 0)%nat)
            then append out "/" else out in
          let '(r', out2) := copy_element n p r out1 in
          clean_loop fuel' p rooted r' out2 dotdot
      else out
  end.

Definition Clean_list (p : list ascii) : list ascii :=
  match p with
  | [] => ["."%char]
  | c :: _ =>
      let rooted := IsPathSeparator c in
      let out0 := if rooted then append {| buf := []; w := 0 |} "/"
                  else {| buf := []; w := 0 |} in
      let start := if rooted then 1%nat else 0%nat in
      let out := clean_loop (S (List.length p)) p rooted start out0 start in
      if (w out =? 0)%nat then ["."%char] else contents out
  end.

Definition Clean (path : string) : string :=
  string_of_list_ascii (Clean_list (list_ascii_of_string path)).

(** [i := len(path)-1; for i >= 0 && !IsPathSeparator(path[i]) { i-- }]:
    the number of bytes kept, [i+1]. *)
Fixpoint last_separator (p : list ascii) (i : nat) : nat :=
  match i with
  | O => O
  | S i' => if IsPathSeparator (at_ p i') then i else last_separator p i'
  end.

Definition Dir (path : string) : string :=
  let p := list_ascii_of_string path in
  Clean (string_of_list_ascii (firstn (last_separator p (List.length p)) p)).

(** [for len(path) > 0 && IsPathSeparator(path[len(path)-1]) { path = path[:len(path)-1] }] *)
Fixpoint strip_trailing (p : list ascii) (n : nat) : nat :=
  match n with
  | O => O
  | S n' => if IsPathSeparator (at_ p n') then strip_trailing p n' else n
  end.

Definition Base (path : string) : string :=
  match list_ascii_of_string path with
  | [] => "."
  | p =>
      let p1 := firstn (strip_trailing p (List.length p)) p in
      let p2 := skipn (last_separator p1 (List.length p1)) p1 in
      match p2 with
      | [] => "/"
      | _ => string_of_list_ascii p2
      end
  end.
End filepath.

(** ** The system-call boundary

    One constructor per system call the package reaches, directly through
    [unix.*] or through [os.File].  A kernel answers a call with the raw
    triple of [Syscall]: the return value [r0], the error number [e1]
    ([0] for none) and, for fstat(2), the filled [Stat_t]. *)

Inductive Syscall : Type :=
| SysOpenat2 (dirfd : Z) (path : string) (how : unix.OpenHow)
| SysOpen (path : string) (flags : Z) (perm : Z)
| SysOpenat (dirfd : Z) (path : string) (flags : Z) (perm : Z)
| SysFstat (fd : Z)
| SysClose (fd : Z)
| SysWrite (fd : Z) (p : list byte)
| SysFsync (fd : Z)
| SysFchown (fd : Z) (uid gid : Z)
| SysUnlinkat (dirfd : Z) (path : string) (flags : Z)
| SysLinkat (olddirfd : Z) (oldpath : string) (newdirfd : Z) (newpath : string) (flags : Z)
| SysRenameat (olddirfd : Z) (oldpath : string) (newdirfd : Z) (newpath : string).

Record Reply := { r0 : Z; e1 : unix.Errno; st : unix.Stat_t }.

Definition Event : Type := Syscall * Reply.

Class Unix (K : Type) := { syscall : Syscall -> K -> Reply * K }.

(** [errnoErr]: the [error] a wrapper of package [unix] returns. *)
Definition errnoErr (e : unix.Errno) : option error :=
  if e =? 0 then None else Some (ErrnoError e).

(** [WriteOptions] defines options for secure file writing. *)
Record WriteOptions := {
  Perm : Z;
  UID : Z;
  GID : Z;
  Sync : bool;
  VerifyAll : bool;
  NoCrossDevice : bool
}.

Definition uint32 (z : Z) : Z := z mod 2 ^ 32.

(** Decimal rendering of an integer, for [%d]. *)
Definition itoa (z : Z) : string := NilZero.string_of_int (Z.to_int z).

Section Program.
Context {K : Type} {U : Unix K}.

(** The state a call runs in: the kernel and the calls issued so far,
    oldest first. *)
Record World := { kernel : K; trace : list Event }.

(** The outcome of running a computation: a normal return, a Go panic,
    or a loop that was still running when the fuel ran out. *)
Inductive Run (A : Type) : Type :=
| Returns (a : A) (w : World)
| Panics (msg : string)
| OutOfFuel.
Arguments Returns {A} a w.
Arguments Panics {A} msg.
Arguments OutOfFuel {A}.

Definition M (A : Type) : Type := World -> Run A.

Definition ret {A} (a : A) : M A := fun w => Returns a w.
Definition bind {A B} (m : M A) (k : A -> M B) : M B :=
  fun w => match m w with
           | Returns a w' => k a w'
           | Panics msg => Panics msg
           | OutOfFuel => OutOfFuel
           end.
Definition panic {A} (msg : string) : M A := fun _ => Panics msg.
Definition out_of_fuel {A} : M A := fun _ => OutOfFuel.

Notation "x <- m ;; k" := (bind m (fun x => k))
  (at level 100, m at next level, right associativity).
Notation "' pat <- m ;; k" := (bind m (fun x => match x with pat => k end))
  (at level 100, pat pattern, m at next level, right associativity).

(** Issue one system call and record it. *)
Definition call (s : Syscall) : M Reply :=
  fun w => let '(r, k') := syscall s (kernel w) in
           Returns r {| kernel := k'; trace := trace w ++ [(s, r)] |}.

(** *** The wrappers of package [unix] *)

Definition unix_Openat2 (dirfd : Z) (path : string) (how : unix.OpenHow)
  : M (Z * option error) :=
  r <- call (SysOpenat2 dirfd path how) ;; ret (r0 r, errnoErr (e1 r)).
Definition unix_Open (path : string) (flags perm : Z) : M (Z * option error) :=
  r <- call (SysOpen path flags perm) ;; ret (r0 r, errnoErr (e1 r)).
Definition unix_Openat (dirfd : Z) (path : string) (flags perm : Z)
  : M (Z * option error) :=
  r <- call (SysOpenat dirfd path flags perm) ;; ret (r0 r, errnoErr (e1 r)).
Definition unix_Fstat (fd : Z) : M (unix.Stat_t * option error) :=
  r <- call (SysFstat fd) ;; ret (st r, errnoErr (e1 r)).
Definition unix_Close (fd : Z) : M (option error) :=
  r <- call (SysClose fd) ;; ret (errnoErr (e1 r)).
Definition unix_Write (fd : Z) (p : list byte) : M (Z * option error) :=
  r <- call (SysWrite fd p) ;; ret (r0 r, errnoErr (e1 r)).
Definition unix_Fsync (fd : Z) : M (option error) :=
  r <- call (SysFsync fd) ;; ret (errnoErr (e1 r)).
Definition unix_Fchown (fd uid gid : Z) : M (option error) :=
  r <- call (SysFchown fd uid gid) ;; ret (errnoErr (e1 r)).
Definition unix_Unlinkat (dirfd : Z) (path : string) (flags : Z) : M (option error) :=
  r <- call (SysUnlinkat dirfd path flags) ;; ret (errnoErr (e1 r)).
Definition unix_Linkat (olddirfd : Z) (oldpath : string) (newdirfd : Z)
           (newpath : string) (flags : Z) : M (option error) :=
  r <- call (SysLinkat olddirfd oldpath newdirfd newpath flags) ;;
  ret (errnoErr (e1 r)).
Definition unix_Renameat (olddirfd : Z) (oldpath : string) (newdirfd : Z)
           (newpath : string) : M (option error) :=
  r <- call (SysRenameat olddirfd oldpath newdirfd newpath) ;;
  ret (errnoErr (e1 r)).

(** *** [os.File] over a raw descriptor

    [os.NewFile] returns [nil] for a negative descriptor, and the methods
    of a [nil] file return [os.ErrInvalid]; a file is [option File]. *)

Record File := { Sysfd : Z; name : string }.

Definition os_NewFile (fd : Z) (nm : string) : option File :=
  if fd <? 0 then None else Some {| Sysfd := fd; name := nm |}.

Definition ErrInvalid : error := ErrorString "invalid argument".
Definition ErrShortWrite : error := ErrorString "short write".
Definition ErrUnexpectedEOF : error := ErrorString "unexpected EOF".

(** [poll.FD.Write] hands the kernel at most [maxRW] bytes at a time. *)
Definition maxRW : Z := 2 ^ 30.

(** The loop of [poll.FD.Write]: write what is left of [p], a piece of at
    most [maxRW] bytes at a time, until all of it is accepted, a call
    fails, or a call accepts nothing.  [nn] bytes are written so far; each
    further round needs a call that accepted at least one byte, so
    [S (length p)] rounds are enough. *)
Fixpoint pfd_Write (fuel : nat) (fd : Z) (p : list byte) (nn : Z)
  : M (Z * option error) :=
  match fuel with
  | O => out_of_fuel
  | S fuel' =>
      let max := Z.of_nat (List.length p) in
      let max := if maxRW <? max - nn then nn + maxRW else max in
      '(n, err) <- unix_Write fd (firstn (Z.to_nat (max - nn))
                                         (skipn (Z.to_nat nn) p)) ;;
      if (0 <? n) && (max - nn <? n) then panic "invalid return from write" else
      let nn := if 0 <? n then nn + n else nn in
      if nn =? Z.of_nat (List.length p) then ret (nn, err) else
      match err with
      | Some e => ret (nn, Some e)
      | None =>
          if n =? 0 then ret (nn, Some ErrUnexpectedEOF)
          else pfd_Write fuel' fd p nn
      end
  end.

(** [File.Write] of package [os] *)
Definition File_Write (f : option File) (b : list byte) : M (Z * option error) :=
  match f with
  | None => ret (0, Some ErrInvalid)
  | Some f =>
      '(n, e) <- pfd_Write (S (List.length b)) (Sysfd f) b 0 ;;
      let n := if n <? 0 then 0 else n in
      let err := if negb (n =? Z.of_nat (List.length b)) then Some ErrShortWrite else None in
      match e with
      | Some e => ret (n, Some (PathError "write" (name f) e))
      | None => ret (n, err)
      end
  end.

(** [File.Sync] of package [os] *)
Definition File_Sync (f : option File) : M (option error) :=
  match f with
  | None => ret (Some ErrInvalid)
  | Some f =>
      e <- unix_Fsync (Sysfd f) ;;
      match e with
      | Some e => ret (Some (PathError "sync" (name f) e))
      | None => ret None
      end
  end.

(** [File.Close] of package [os]: closes the descriptor the file was made from. *)
Definition File_Close (f : option File) : M (option error) :=
  match f with
  | None => ret (Some ErrInvalid)
  | Some f =>
      e <- unix_Close (Sysfd f) ;;
      match e with
      | Some e => ret (Some (PathError "close" (name f) e))
      | None => ret None
      end
  end.

(** *** Control structure

    [defer_ d body]: [d] was deferred just before [body], the rest of the
    function; it runs when [body] returns.  Nesting gives the
    last-in-first-out order of Go's deferred calls. *)
Definition defer_ {A B} (d : M B) (body : M A) : M A :=
  a <- body ;; _ <- d ;; ret a.

(** [if err != nil { return fmt.Errorf(msg + ": %w", err) }], then [k]. *)
Definition orReturn (err : option error) (msg : string) (k : M (option error))
  : M (option error) :=
  match err with
  | Some e => ret (Some (WrapError msg e))
  | None => k
  end.

(** *** The package *)

Definition fallbackNeeded (err : option error) : bool :=
  match err with
  | None => false
  | Some err =>
      match errors_As_Errno err with
      | Some errno =>
          (errno =? unix.EOPNOTSUPP) || (errno =? unix.EINVAL)
          || (errno =? unix.ENOTDIR) || (errno =? unix.EPERM)
      | None => false
      end
  end.

Definition openDirSecure (path : string) (noCrossDevice : bool)
  : M (Z * option error) :=
  let resolveFlags := Z.lor unix.RESOLVE_NO_SYMLINKS unix.RESOLVE_NO_MAGICLINKS in
  let resolveFlags :=
    if noCrossDevice then Z.lor resolveFlags unix.RESOLVE_NO_XDEV
    else resolveFlags in
  let how := {| unix.Flags := Z.lor unix.O_PATH unix.O_DIRECTORY;
                unix.Mode := 0;
                unix.Resolve := resolveFlags |} in
  '(fd, err) <- unix_Openat2 unix.AT_FDCWD path how ;;
  match err with
  | None => ret (fd, None)
  | Some e =>
      if errors_Is_Errno e unix.ENOSYS then
        unix_Open path
                  (Z.lor (Z.lor unix.O_RDONLY unix.O_DIRECTORY) unix.O_NOFOLLOW) 0
      else ret (-1, Some e)
  end.

(** The [for] loop of [verifyDirectorySecure]; one unit of fuel per
    directory examined. *)
Fixpoint verifyDirectorySecure (fuel : nat) (current : string) (verifyAll : bool)
  : M (option error) :=
  match fuel with
  | O => out_of_fuel
  | S fuel' =>
      '(fd, err) <- openDirSecure current true ;;
      orReturn err ("open directory " ++ current) (
      '(stat, err) <- unix_Fstat fd ;;
      match err with
      | Some e =>
          _ <- unix_Close fd ;;
          ret (Some (WrapError ("fstat directory " ++ current) e))
      | None =>
          _ <- unix_Close fd ;;
          if negb (unix.Uid stat =? 0) then
            ret (Some (ErrorString ("directory " ++ current
                    ++ " not owned by root (uid=" ++ itoa (unix.Uid stat) ++ ")")))
          else if negb (Z.land (unix.StMode stat) unix.S_IWOTH =? 0)
                  && (Z.land (unix.StMode stat) unix.S_ISVTX =? 0) then
            ret (Some (ErrorString ("directory " ++ current
                    ++ " is world-writable without sticky bit")))
          else if negb verifyAll || String.eqb current "/" then
            ret None
          else
            verifyDirectorySecure fuel' (filepath.Dir current) verifyAll
      end)
  end.

(** The last block of both strategies:
    [if opts.Sync { dirFile := os.NewFile(...); defer dirFile.Close(); ... }]
    followed by [return nil]. *)
Definition syncDirectory (opts : WriteOptions) (dirFd : Z) (dirPath : string)
  : M (option error) :=
  if Sync opts then
    let dirFile := os_NewFile dirFd dirPath in
    defer_ (File_Close dirFile) (
      err <- File_Sync dirFile ;;
      orReturn err "sync directory" (ret None))
  else ret None.

Definition ultraParanoidWrite (fuel : nat) (path : string) (data : list byte)
           (opts : WriteOptions) : M (option error) :=
  let dirPath := filepath.Dir path in
  let baseName := filepath.Base path in
  verr <- (if VerifyAll opts then verifyDirectorySecure fuel dirPath true
           else ret None) ;;
  match verr with
  | Some err => ret (Some err)
  | None =>
  '(dirFd, err) <- openDirSecure dirPath (NoCrossDevice opts) ;;
  orReturn err "open directory secure" (
  defer_ (unix_Close dirFd) (
    '(tmpFd, err) <- unix_Openat dirFd "" (Z.lor unix.O_RDWR unix.O_TMPFILE)
                                 (uint32 (Perm opts)) ;;
    orReturn err "openat O_TMPFILE" (
    defer_ (unix_Close tmpFd) (
      '(_, err) <- unix_Write tmpFd data ;;
      orReturn err "write temp file" (
      err <- (if Sync opts then unix_Fsync tmpFd else ret None) ;;
      orReturn err "fsync temp file" (
      err <- (if (0 <=? UID opts) || (0 <=? GID opts)
              then unix_Fchown tmpFd (UID opts) (GID opts) else ret None) ;;
      orReturn err "fchown temp file" (
      _ <- unix_Unlinkat dirFd baseName 0 ;;
      err <- unix_Linkat tmpFd "" dirFd baseName unix.AT_EMPTY_PATH ;;
      orReturn err "linkat temp file" (
      syncDirectory opts dirFd dirPath))))))))
  end.

Definition paranoidAtomicWrite (fuel : nat) (path : string) (data : list byte)
           (opts : WriteOptions) : M (option error) :=
  let dirPath := filepath.Dir path in
  let baseName := filepath.Base path in
  let tmpName := "." ++ baseName ++ ".tmp" in
  verr <- (if VerifyAll opts then verifyDirectorySecure fuel dirPath true
           else ret None) ;;
  match verr with
  | Some err => ret (Some err)
  | None =>
  '(dirFd, err) <- openDirSecure dirPath (NoCrossDevice opts) ;;
  orReturn err "open directory secure" (
  defer_ (unix_Close dirFd) (
    '(tmpFd, err) <- unix_Openat dirFd tmpName
                       (Z.lor (Z.lor (Z.lor unix.O_WRONLY unix.O_CREAT) unix.O_EXCL)
                              unix.O_NOFOLLOW)
                       (uint32 (Perm opts)) ;;
    orReturn err "openat temp file" (
    defer_ (_ <- unix_Close tmpFd ;; unix_Unlinkat dirFd tmpName 0) (
      let tmpFile := os_NewFile tmpFd tmpName in
      '(_, err) <- File_Write tmpFile data ;;
      orReturn err "write temp file" (
      err <- (if Sync opts then File_Sync tmpFile else ret None) ;;
      orReturn err "fsync temp file" (
      err <- (if (0 <=? UID opts) || (0 <=? GID opts)
              then unix_Fchown tmpFd (UID opts) (GID opts) else ret None) ;;
      orReturn err "fchown temp file" (
      err <- File_Close tmpFile ;;
      orReturn err "close temp file" (
      _ <- unix_Unlinkat dirFd baseName 0 ;;
      err <- unix_Renameat dirFd tmpName dirFd baseName ;;
      orReturn err "rename temp file" (
      syncDirectory opts dirFd dirPath)))))))))
  end.

Definition secureAtomicWriteInternal (fuel : nat) (path : string)
           (data : list byte) (opts : WriteOptions) : M (option error) :=
  err <- ultraParanoidWrite fuel path data opts ;;
  if fallbackNeeded err then paranoidAtomicWrite fuel path data opts
  else ret err.

(** [SecureAtomicWrite] writes data with default secure options. *)
Definition SecureAtomicWrite (fuel : nat) (path : string) (data : list byte)
           (perm : Z) : M (option error) :=
  let opts := {| Perm := perm; UID := -1; GID := -1; Sync := true;
                 VerifyAll := false; NoCrossDevice := true |} in
  secureAtomicWriteInternal fuel path data opts.

(** [SecureAtomicWriteRoot] *)
Definition SecureAtomicWriteRoot (fuel : nat) (path : string) (data : list byte)
           (perm : Z) : M (option error) :=
  let opts := {| Perm := perm; UID := -1; GID := -1; Sync := true;
                 VerifyAll := false; NoCrossDevice := true |} in
  secureAtomicWriteInternal fuel path data opts.

(** [SecureAtomicWriteRootStrict] *)
Definition SecureAtomicWriteRootStrict (fuel : nat) (path : string)
           (data : list byte) (perm : Z) : M (option error) :=
  let opts := {| Perm := perm; UID := -1; GID := -1; Sync := true;
                 VerifyAll := true; NoCrossDevice := true |} in
  secureAtomicWriteInternal fuel path data opts.

(** [SecureAtomicWriteWithOptions] *)
Definition SecureAtomicWriteWithOptions (fuel : nat) (path : string)
           (data : list byte) (opts : WriteOptions) : M (option error) :=
  secureAtomicWriteInternal fuel path data opts.

End Program.

Arguments Returns {K A} a w.
Arguments Panics {K A} msg.
Arguments OutOfFuel {K A}.

(** ** A simulated kernel

    A small file system to run the package on: the paths that can be
    opened as directories, inodes, directory entries and a descriptor
    table.  Every facility the package uses is present unless a switch of
    the state turns it off. *)

Module Sim.

Record DirInfo := {
  d_isdir : bool;    (* a directory, not a regular file *)
  d_uid : Z;
  d_mode : Z;
  d_xdev : bool      (* reaching it crosses a mount point *)
}.

Record Inode := {
  i_data : list byte;
  i_perm : Z;
  i_uid : Z;
  i_gid : Z
}.

Inductive FdObj := FdDir (path : string) | FdFile (ino : Z).

Record State := {
  has_openat2 : bool;          (* openat2(2) exists (Linux 5.6) *)
  tmpfile_errno : unix.Errno;  (* 0, or what O_TMPFILE fails with *)
  write_max : Z;               (* most bytes one write(2) accepts; 0: no limit *)
  dirs : list (string * DirInfo);
  inodes : list (Z * Inode);
  entries : list ((string * string) * Z);
  fds : list (Z * FdObj);
  next_fd : Z;
  next_ino : Z
}.

Section Assoc.
Context {A B : Type} (eqb : A -> A -> bool).
Fixpoint lookup (k : A) (l : list (A * B)) : option B :=
  match l with
  | [] => None
  | (k', v) :: l' => if eqb k k' then Some v else lookup k l'
  end.
Definition remove (k : A) (l : list (A * B)) : list (A * B) :=
  filter (fun kv => negb (eqb k (fst kv))) l.
Definition update (k : A) (v : B) (l : list (A * B)) : list (A * B) :=
  (k, v) :: remove k l.
End Assoc.

Definition entry_eqb (a b : string * string) : bool :=
  String.eqb (fst a) (fst b) && String.eqb (snd a) (snd b).

Definition ok (r : Z) : Reply :=
  {| r0 := r; e1 := 0; st := {| unix.Uid := 0; unix.Gid := 0; unix.StMode := 0 |} |}.
Definition fail (e : unix.Errno) : Reply :=
  {| r0 := -1; e1 := e; st := {| unix.Uid := 0; unix.Gid := 0; unix.StMode := 0 |} |}.

Definition has_flag (flags f : Z) : bool := Z.land flags f =? f.

Definition set_fds (s : State) (f : list (Z * FdObj)) (nfd : Z) : State :=
  {| has_openat2 := has_openat2 s; tmpfile_errno := tmpfile_errno s;
     write_max := write_max s; dirs := dirs s; inodes := inodes s;
     entries := entries s; fds := f; next_fd := nfd; next_ino := next_ino s |}.
Definition set_inodes (s : State) (i : list (Z * Inode)) (nino : Z) : State :=
  {| has_openat2 := has_openat2 s; tmpfile_errno := tmpfile_errno s;
     write_max := write_max s; dirs := dirs s; inodes := i;
     entries := entries s; fds := fds s; next_fd := next_fd s; next_ino := nino |}.
Definition set_entries (s : State) (e : list ((string * string) * Z)) : State :=
  {| has_openat2 := has_openat2 s; tmpfile_errno := tmpfile_errno s;
     write_max := write_max s; dirs := dirs s; inodes := inodes s;
     entries := e; fds := fds s; next_fd := next_fd s; next_ino := next_ino s |}.

Definition alloc_fd (s : State) (o : FdObj) : Reply * State :=
  (ok (next_fd s), set_fds s ((next_fd s, o) :: fds s) (next_fd s + 1)).

Definition new_file (s : State) (perm : Z) : Z * State :=
  (next_ino s,
   set_inodes s ((next_ino s,
                  {| i_data := []; i_perm := perm; i_uid := 0; i_gid := 0 |}) :: inodes s)
              (next_ino s + 1)).

Definition open_dir (s : State) (path : string) (no_xdev : bool) : Reply * State :=
  match lookup String.eqb path (dirs s) with
  | None => (fail unix.ENOENT, s)
  | Some d =>
      if no_xdev && d_xdev d then (fail unix.EXDEV, s)
      else if negb (d_isdir d) then (fail unix.ENOTDIR, s)
      else alloc_fd s (FdDir path)
  end.

Definition sys_openat (s : State) (dirfd : Z) (nm : string) (flags perm : Z)
  : Reply * State :=
  match lookup Z.eqb dirfd (fds s) with
  | Some (FdDir d) =>
      if has_flag flags unix.O_TMPFILE then
        if tmpfile_errno s =? 0 then
          let '(ino, s1) := new_file s perm in alloc_fd s1 (FdFile ino)
        else (fail (tmpfile_errno s), s)
      else
        match lookup entry_eqb (d, nm) (entries s) with
        | Some ino =>
            if has_flag flags unix.O_CREAT && has_flag flags unix.O_EXCL
            then (fail unix.EEXIST, s)
            else alloc_fd s (FdFile ino)
        | None =>
            if has_flag flags unix.O_CREAT then
              let '(ino, s1) := new_file s perm in
              alloc_fd (set_entries s1 (((d, nm), ino) :: entries s1)) (FdFile ino)
            else (fail unix.ENOENT, s)
        end
  | Some (FdFile _) => (fail unix.ENOTDIR, s)
  | None => (fail unix.EBADF, s)
  end.

Definition sys_fstat (s : State) (fd : Z) : Reply * State :=
  match lookup Z.eqb fd (fds s) with
  | Some (FdDir d) =>
      match lookup String.eqb d (dirs s) with
      | Some i => ({| r0 := 0; e1 := 0;
                      st := {| unix.Uid := d_uid i; unix.Gid := 0;
                               unix.StMode := d_mode i |} |}, s)
      | None => (fail unix.ENOENT, s)
      end
  | Some (FdFile ino) =>
      match lookup Z.eqb ino (inodes s) with
      | Some i => ({| r0 := 0; e1 := 0;
                      st := {| unix.Uid := i_uid i; unix.Gid := i_gid i;
                               unix.StMode := i_perm i |} |}, s)
      | None => (fail unix.EIO, s)
      end
  | None => (fail unix.EBADF, s)
  end.

Definition sys_close (s : State) (fd : Z) : Reply * State :=
  match lookup Z.eqb fd (fds s) with
  | Some _ => (ok 0, set_fds s (remove Z.eqb fd (fds s)) (next_fd s))
  | None => (fail unix.EBADF, s)
  end.

Definition sys_write (s : State) (fd : Z) (p : list byte) : Reply * State :=
  match lookup Z.eqb fd (fds s) with
  | Some (FdFile ino) =>
      match lookup Z.eqb ino (inodes s) with
      | Some i =>
          let n := if (0 <? write_max s) && (write_max s <? Z.of_nat (List.length p))
                   then Z.to_nat (write_max s) else List.length p in
          (ok (Z.of_nat n),
           set_inodes s (update Z.eqb ino
                           {| i_data := i_data i ++ firstn n p; i_perm := i_perm i;
                              i_uid := i_uid i; i_gid := i_gid i |} (inodes s))
                      (next_ino s))
      | None => (fail unix.EIO, s)
      end
  | _ => (fail unix.EBADF, s)
  end.

Definition sys_fsync (s : State) (fd : Z) : Reply * State :=
  match lookup Z.eqb fd (fds s) with
  | Some _ => (ok 0, s)
  | None => (fail unix.EBADF, s)
  end.

Definition sys_fchown (s : State) (fd uid gid : Z) : Reply * State :=
  match lookup Z.eqb fd (fds s) with
  | Some (FdFile ino) =>
      match lookup Z.eqb ino (inodes s) with
      | Some i =>
          (ok 0,
           set_inodes s (update Z.eqb ino
                           {| i_data := i_data i; i_perm := i_perm i;
                              i_uid := if uid =? -1 then i_uid i else uid;
                              i_gid := if gid =? -1 then i_gid i else gid |} (inodes s))
                      (next_ino s))
      | None => (fail unix.EIO, s)
      end
  | _ => (fail unix.EBADF, s)
  end.

Definition sys_unlinkat (s : State) (dirfd : Z) (nm : string) : Reply * State :=
  match lookup Z.eqb dirfd (fds s) with
  | Some (FdDir d) =>
      match lookup entry_eqb (d, nm) (entries s) with
      | Some _ => (ok 0, set_entries s (remove entry_eqb (d, nm) (entries s)))
      | None => (fail unix.ENOENT, s)
      end
  | _ => (fail unix.EBADF, s)
  end.

Definition sys_linkat (s : State) (oldfd newdirfd : Z) (nm : string)
  : Reply * State :=
  match lookup Z.eqb oldfd (fds s), lookup Z.eqb newdirfd (fds s) with
  | Some (FdFile ino), Some (FdDir d) =>
      match lookup entry_eqb (d, nm) (entries s) with
      | Some _ => (fail unix.EEXIST, s)
      | None => (ok 0, set_entries s (((d, nm), ino) :: entries s))
      end
  | _, _ => (fail unix.EBADF, s)
  end.

Definition sys_renameat (s : State) (olddirfd : Z) (oldnm : string)
           (newdirfd : Z) (newnm : string) : Reply * State :=
  match lookup Z.eqb olddirfd (fds s), lookup Z.eqb newdirfd (fds s) with
  | Some (FdDir d), Some (FdDir d') =>
      match lookup entry_eqb (d, oldnm) (entries s) with
      | Some ino =>
          (ok 0, set_entries s (update entry_eqb (d', newnm) ino
                                   (remove entry_eqb (d, oldnm) (entries s))))
      | None => (fail unix.ENOENT, s)
      end
  | _, _ => (fail unix.EBADF, s)
  end.

Definition step (c : Syscall) (s : State) : Reply * State :=
  match c with
  | SysOpenat2 _ path how =>
      if has_openat2 s
      then open_dir s path (has_flag (unix.Resolve how) unix.RESOLVE_NO_XDEV)
      else (fail unix.ENOSYS, s)
  | SysOpen path _ _ => open_dir s path false
  | SysOpenat dirfd nm flags perm => sys_openat s dirfd nm flags perm
  | SysFstat fd => sys_fstat s fd
  | SysClose fd => sys_close s fd
  | SysWrite fd p => sys_write s fd p
  | SysFsync fd => sys_fsync s fd
  | SysFchown fd uid gid => sys_fchown s fd uid gid
  | SysUnlinkat dirfd nm _ => sys_unlinkat s dirfd nm
  | SysLinkat oldfd _ newdirfd nm _ => sys_linkat s oldfd newdirfd nm
  | SysRenameat olddirfd oldnm newdirfd newnm =>
      sys_renameat s olddirfd oldnm newdirfd newnm
  end.

#[export] Instance sim_unix : Unix State := {| syscall := step |}.

(** What a reader finds under [name] in directory [dir]. *)
Definition read_file (s : State) (dir nm : string) : option (list byte) :=
  match lookup entry_eqb (dir, nm) (entries s) with
  | Some ino => option_map i_data (lookup Z.eqb ino (inodes s))
  | None => None
  end.

Definition boot (s : State) : World (K := State) := {| kernel := s; trace := [] |}.

(** The error a run returned, its trace and its final kernel state. *)
Definition result {A} (r : Run (K := State) A) : option A :=
  match r with Returns a _ => Some a | _ => None end.
Definition calls {A} (r : Run (K := State) A) : list Syscall :=
  match r with Returns _ w => map fst (trace w) | _ => [] end.
Definition final {A} (r : Run (K := State) A) : option State :=
  match r with Returns _ w => Some (kernel w) | _ => None end.

End Sim.

(** ** A kernel with faults

    The simulated kernel, except that chosen calls fail: [fault c] is the
    error number call [c] is answered with, [0] for none.  A call that
    fails leaves the state as it was. *)

Module Faulty.

Record State := { inner : Sim.State; fault : Syscall -> unix.Errno }.

Definition step (c : Syscall) (s : State) : Reply * State :=
  if fault s c =? 0 then
    let '(r, s') := Sim.step c (inner s) in
    (r, {| inner := s'; fault := fault s |})
  else (Sim.fail (fault s c), s).

#[global] Instance faulty_unix : Unix State := {| syscall := step |}.

Definition boot (s : State) : World (K := State) := {| kernel := s; trace := [] |}.

End Faulty.

Definition bytes (s : string) : list byte := list_byte_of_string s.

(** ** A machine to run on

    Directories [/], [/etc] and [/srv] and the working directory [.] belong
    to root and are not writable by others; [/tmp] is writable by all with
    the sticky bit; [/tmp/x] belongs to user 1000 and is writable by all
    without it; [/etc/passwd] is a regular file; [/srv/data] is a mount
    point.  A file [.interruptfile.txt.tmp] with partial content is left
    over in [/tmp/x]. *)

Definition rootDir (mode : Z) : Sim.DirInfo :=
  {| Sim.d_isdir := true; Sim.d_uid := 0; Sim.d_mode := mode; Sim.d_xdev := false |}.

Definition machine : Sim.State :=
  {| Sim.has_openat2 := true;
     Sim.tmpfile_errno := 0;
     Sim.write_max := 0;
     Sim.dirs :=
       [("/", rootDir 0x41ed);
        ("/tmp", rootDir 0x43ff);
        ("/tmp/x", {| Sim.d_isdir := true; Sim.d_uid := 1000;
                      Sim.d_mode := 0x41ff; Sim.d_xdev := false |});
        (".", rootDir 0x41ed);
        ("/etc", rootDir 0x41ed);
        ("/etc/passwd", {| Sim.d_isdir := false; Sim.d_uid := 0;
                           Sim.d_mode := 0x81a4; Sim.d_xdev := false |});
        ("/srv", rootDir 0x41ed);
        ("/srv/data", {| Sim.d_isdir := true; Sim.d_uid := 0;
                         Sim.d_mode := 0x41ed; Sim.d_xdev := true |})];
     Sim.inodes :=
       [(50, {| Sim.i_data := bytes "partial data"; Sim.i_perm := 0x180;
                Sim.i_uid := 1000; Sim.i_gid := 1000 |})];
     Sim.entries := [(("/tmp/x", ".interruptfile.txt.tmp"), 50)];
     Sim.fds := [];
     Sim.next_fd := 3;
     Sim.next_ino := 100 |}.

(** The same machine on a file system without O_TMPFILE. *)
Definition machine_without_tmpfile : Sim.State :=
  {| Sim.has_openat2 := true;
     Sim.tmpfile_errno := unix.EOPNOTSUPP;
     Sim.write_max := 0;
     Sim.dirs := Sim.dirs machine;
     Sim.inodes := Sim.inodes machine;
     Sim.entries := Sim.entries machine;
     Sim.fds := [];
     Sim.next_fd := 3;
     Sim.next_ino := 100 |}.

(** The same machine when one write(2) accepts five bytes at most. *)
Definition machine_short_writes : Sim.State :=
  {| Sim.has_openat2 := true;
     Sim.tmpfile_errno := 0;
     Sim.write_max := 5;
     Sim.dirs := Sim.dirs machine;
     Sim.inodes := Sim.inodes machine;
     Sim.entries := Sim.entries machine;
     Sim.fds := [];
     Sim.next_fd := 3;
     Sim.next_ino := 100 |}.

(** The options of the package's own tests. *)
Definition testOptions : WriteOptions :=
  {| Perm := 0x180; UID := -1; GID := -1; Sync := true;
     VerifyAll := false; NoCrossDevice := true |}.

(** Both at once: no O_TMPFILE, and short writes. *)
Definition machine_short_writes_without_tmpfile : Sim.State :=
  {| Sim.has_openat2 := true;
     Sim.tmpfile_errno := unix.EOPNOTSUPP;
     Sim.write_max := 5;
     Sim.dirs := Sim.dirs machine;
     Sim.inodes := Sim.inodes machine;
     Sim.entries := Sim.entries machine;
     Sim.fds := [];
     Sim.next_fd := 3;
     Sim.next_ino := 100 |}.

(** Full ancestor verification asked for, mount confinement declined. *)
Definition unconfinedStrictOptions : WriteOptions :=
  {| Perm := 0x1a4; UID := -1; GID := -1; Sync := true;
     VerifyAll := true; NoCrossDevice := false |}.

(** The options of the tests, without the durable sync. *)
Definition unsyncedOptions : WriteOptions :=
  {| Perm := 0x180; UID := -1; GID := -1; Sync := false;
     VerifyAll := false; NoCrossDevice := true |}.

(** The machine for a caller whose linkat(2) of an anonymous file is
    refused with ENOENT, the answer linkat(2) documents for an empty old
    path with AT_EMPTY_PATH when the caller lacks CAP_DAC_READ_SEARCH. *)
Definition machine_refusing_linkat : Faulty.State :=
  {| Faulty.inner := machine;
     Faulty.fault := fun c => match c with
                              | SysLinkat _ _ _ _ _ => unix.ENOENT
                              | _ => 0
                              end |}.

(** The machine when renameat(2) fails with an input/output error. *)
Definition machine_failing_rename : Faulty.State :=
  {| Faulty.inner := machine;
     Faulty.fault := fun c => match c with
                              | SysRenameat _ _ _ _ => unix.EIO
                              | _ => 0
                              end |}.

(** The descriptors closed by a run, in order, each with the error number
    close(2) answered. *)
Definition closes (evs : list Event) : list (Z * unix.Errno) :=
  flat_map (fun ev => match fst ev with
                      | SysClose fd => [(fd, e1 (snd ev))]
                      | _ => []
                      end) evs.

(** The descriptors a run obtained from a successful open. *)
Definition opened (evs : list Event) : list Z :=
  flat_map (fun ev => match fst ev with
                      | SysOpenat2 _ _ _ | SysOpen _ _ _ | SysOpenat _ _ _ _ =>
                          if e1 (snd ev) =? 0 then [r0 (snd ev)] else []
                      | _ => []
                      end) evs.

(** The bytes the kernel accepted from the write(2) calls of a trace. *)
Definition accepted (evs : list Event) : list byte :=
  flat_map (fun ev => match fst ev with
                      | SysWrite _ p => firstn (Z.to_nat (r0 (snd ev))) p
                      | _ => []
                      end) evs.

Definition trace_of {K A} (r : Run (K := K) A) : list Event :=
  match r with Returns _ w => trace w | _ => [] end.

(** ** Test tables of [path/filepath]

    Inputs and expected outputs from the tests of Go's [path/filepath]
    ([cleantests], [dirtests], [basetests]). *)

Definition cleantests : list (string * string) :=
  [("abc", "abc"); ("abc/def", "abc/def"); ("a/b/c", "a/b/c"); (".", ".");
   ("..", ".."); ("../..", "../.."); ("../../abc", "../../abc"); ("/abc", "/abc");
   ("/", "/"); ("", "."); ("abc/", "abc"); ("abc/def/", "abc/def");
   ("a/b/c/", "a/b/c"); ("./", "."); ("../", ".."); ("../../", "../..");
   ("/abc/", "/abc"); ("abc//def//ghi", "abc/def/ghi"); ("abc//", "abc");
   ("abc/./def", "abc/def"); ("/./abc/def", "/abc/def"); ("abc/.", "abc");
   ("abc/def/ghi/../jkl", "abc/def/jkl"); ("abc/def/../ghi/../jkl", "abc/jkl");
   ("abc/def/..", "abc"); ("abc/def/../..", "."); ("/abc/def/../..", "/");
   ("abc/def/../../..", ".."); ("/abc/def/../../..", "/");
   ("abc/def/../../../ghi/jkl/../../../mno", "../../mno"); ("/../abc", "/abc");
   ("a/../b:/../../c", "../c"); ("abc/./../def", "def"); ("abc//./../def", "def");
   ("abc/../../././../def", "../../def")].

Definition dirtests : list (string * string) :=
  [("", "."); (".", "."); ("/.", "/"); ("/", "/"); ("/foo", "/"); ("x/", "x");
   ("abc", "."); ("abc/def", "abc"); ("a/b/.x", "a/b"); ("a/b/c.", "a/b");
   ("a/b/c.x", "a/b")].

Definition basetests : list (string * string) :=
  [("", "."); (".", "."); ("/.", "."); ("/", "/"); ("////", "/"); ("x/", "x");
   ("abc", "abc"); ("abc/def", "def"); ("a/b/.x", ".x"); ("a/b/c.", "c.");
   ("a/b/c.x", "c.x")].

Definition agrees (f : string -> string) (table : list (string * string)) : bool :=
  forallb (fun t => String.eqb (f (fst t)) (snd t)) table.

(** ** Vocabulary of the properties *)

(** The four error numbers the dispatcher takes for "the anonymous
    temporary file facility is not there". *)
Definition fallbackErrnos : list unix.Errno :=
  [unix.EOPNOTSUPP; unix.EINVAL; unix.ENOTDIR; unix.EPERM].

(** The error is, or wraps, one of the four. *)
Definition unsupportedFeature (err : option error) : Prop :=
  exists e errno, err = Some e /\ wraps e (ErrnoError errno) /\ In errno fallbackErrnos.

(** The errors the ancestor verifier returns: a failure to open or to
    fstat a directory, wrapping the bare [Errno] of the call, or one of
    its two rejections, which wrap nothing. *)
Inductive verifierError : error -> Prop :=
| ve_open : forall current errno,
    verifierError (WrapError ("open directory " ++ current) (ErrnoError errno))
| ve_fstat : forall current errno,
    verifierError (WrapError ("fstat directory " ++ current) (ErrnoError errno))
| ve_owner : forall current uid,
    verifierError (ErrorString ("directory " ++ current
                                ++ " not owned by root (uid=" ++ itoa uid ++ ")"))
| ve_mode : forall current,
    verifierError (ErrorString ("directory " ++ current
                                ++ " is world-writable without sticky bit")).

(** The argument block [openDirSecure] passes to openat2(2). *)
Definition openDirHow (noCrossDevice : bool) : unix.OpenHow :=
  {| unix.Flags := 0x210000; unix.Mode := 0;
     unix.Resolve := if noCrossDevice then 7 else 6 |}.

(** The options the three fixed entry points build. *)
Definition defaultOptions (perm : Z) : WriteOptions :=
  {| Perm := perm; UID := -1; GID := -1; Sync := true;
     VerifyAll := false; NoCrossDevice := true |}.

Definition withVerifyAll (opts : WriteOptions) (b : bool) : WriteOptions :=
  {| Perm := Perm opts; UID := UID opts; GID := GID opts; Sync := Sync opts;
     VerifyAll := b; NoCrossDevice := NoCrossDevice opts |}.

(** An openat2(2) call that refuses to cross a mount point. *)
Definition confined (ev : Event) : Prop :=
  match fst ev with
  | SysOpenat2 _ _ how => Z.land (unix.Resolve how) unix.RESOLVE_NO_XDEV
                          = unix.RESOLVE_NO_XDEV
  | _ => True
  end.

(** A call that does not read the owner or mode behind a descriptor. *)
Definition noFstat (ev : Event) : Prop :=
  match fst ev with
  | SysFstat _ => False
  | _ => True
  end.

(** A call that does not name [nm] inside a directory. *)
Definition avoidsName (nm : string) (ev : Event) : Prop :=
  match fst ev with
  | SysOpenat _ p _ _ => p <> nm
  | SysUnlinkat _ p _ => p <> nm
  | SysLinkat _ _ _ p _ => p <> nm
  | SysRenameat _ p _ q => p <> nm /\ q <> nm
  | _ => True
  end.

(** A path that starts at the root. *)
Definition rooted (p : string) : bool :=
  match p with
  | String c _ => filepath.IsPathSeparator c
  | EmptyString => false
  end.

Definition rooted_list (p : list ascii) : bool :=
  match p with
  | c :: _ => filepath.IsPathSeparator c
  | [] => false
  end.

(** The buffer holds what it says, and what it holds does not start with
    a separator. *)
Definition relative_buf (b : filepath.lazybuf) : Prop :=
  (filepath.w b <= List.length (filepath.buf b))%nat
  /\ ((0 < filepath.w b)%nat ->
      filepath.IsPathSeparator (filepath.at_ (filepath.buf b) 0) = false).

Definition rooted_buf (b : filepath.lazybuf) : Prop :=
  (1 <= filepath.w b <= List.length (filepath.buf b))%nat
  /\ filepath.IsPathSeparator (filepath.at_ (filepath.buf b) 0) = true.

(** The state of the main loop on a rooted path [p]: the output is rooted
    and no longer than what has been read, shorter when the last byte read
    is a separator; and an element starts only after a separator. *)
Definition rooted_state (p : list ascii) (r : nat) (b : filepath.lazybuf) : Prop :=
  rooted_buf b
  /\ (1 <= r <= List.length p)%nat
  /\ (filepath.w b <= r)%nat
  /\ ((2 <= r)%nat ->
      filepath.IsPathSeparator (filepath.at_ p (r - 1)) = true ->
      (filepath.w b < r)%nat)
  /\ (r = List.length p \/ filepath.IsPathSeparator (filepath.at_ p r) = true
      \/ filepath.IsPathSeparator (filepath.at_ p (r - 1)) = true).

Definition rooted_result (p : list ascii) (b : filepath.lazybuf) : Prop :=
  rooted_buf b
  /\ (filepath.w b <= List.length p)%nat
  /\ ((2 <= List.length p)%nat ->
      filepath.IsPathSeparator (filepath.at_ p (List.length p - 1)) = true ->
      (filepath.w b < List.length p)%nat).

Section Vocabulary.
Context {K : Type} {U : Unix K}.

(** The world after call [s] was answered [r], leaving kernel [k]. *)
Definition record_call (w : World (K := K)) (s : Syscall) (r : Reply) (k : K)
  : World (K := K) :=
  {| kernel := k; trace := trace w ++ [(s, r)] |}.

(** [emits P m]: whenever [m] returns, the world it returns extends the
    trace it started from, and every call added satisfies [P]. *)
Definition emits {A} (P : Event -> Prop) (m : M (K := K) A) : Prop :=
  forall w a w', m w = Returns a w' ->
    exists evs, trace w' = (trace w ++ evs)%list /\ Forall P evs.

(** The body of the verifier's loop: open [current] under mount
    confinement, read its owner and mode, close it, and reject a
    directory not owned by root or writable by others without the sticky
    bit. *)
Definition checkDirectory (current : string) : M (K := K) (option error) :=
  verifyDirectorySecure 1 current false.
End Vocabulary.

(** A directory of the simulated kernel that the verifier accepts. *)
Definition safeDir (d : Sim.DirInfo) : Prop :=
  Sim.d_isdir d = true /\ Sim.d_xdev d = false /\ Sim.d_uid d = 0
  /\ negb (Z.land (Sim.d_mode d) unix.S_IWOTH =? 0)
     && (Z.land (Sim.d_mode d) unix.S_ISVTX =? 0) = false.

(** The directories the ancestor walk visits from [p]: [p], its textual
    parent, and so on, up to and including [/]; at most [fuel] of them. *)
Fixpoint ancestry (fuel : nat) (p : string) : list string :=
  match fuel with
  | O => []
  | S fuel' => p :: if String.eqb p "/" then [] else ancestry fuel' (filepath.Dir p)
  end.

(** The paths handed to openat2(2), in order. *)
Definition dirsOpened (evs : list Event) : list string :=
  flat_map (fun ev => match fst ev with
                      | SysOpenat2 _ p _ => [p]
                      | _ => []
                      end) evs.

(** An fstat(2) whose answer passes both checks of the verifier: owner
    root, and not writable by others unless sticky. *)
Definition statAccepted (ev : Event) : Prop :=
  match fst ev with
  | SysFstat _ =>
      e1 (snd ev) = 0
      /\ unix.Uid (st (snd ev)) = 0
      /\ (Z.land (unix.StMode (st (snd ev))) unix.S_IWOTH = 0
          \/ Z.land (unix.StMode (st (snd ev))) unix.S_ISVTX <> 0)
  | _ => True
  end.

(** The calls the verifier is made of. *)
Definition verifierCall (ev : Event) : Prop :=
  match fst ev with
  | SysOpenat2 _ _ _ | SysOpen _ _ _ | SysFstat _ | SysClose _ => True
  | _ => False
  end.

Definition noFchown (ev : Event) : Prop :=
  match fst ev with SysFchown _ _ _ => False | _ => True end.

Definition noFsync (ev : Event) : Prop :=
  match fst ev with SysFsync _ => False | _ => True end.

Definition noWrite (ev : Event) : Prop :=
  match fst ev with SysWrite _ _ => False | _ => True end.

(** A call that neither removes nor installs a directory entry. *)
Definition keepsEntries (ev : Event) : Prop :=
  match fst ev with
  | SysUnlinkat _ _ _ | SysLinkat _ _ _ _ _ | SysRenameat _ _ _ _ => False
  | _ => True
  end.

Definition onlyWrite (ev : Event) : Prop :=
  match fst ev with SysWrite _ _ => True | _ => False end.

(** The file [i] of the simulated kernel once [p] has been appended to it. *)
Definition appended (i : Sim.Inode) (p : list byte) : Sim.Inode :=
  {| Sim.i_data := Sim.i_data i ++ p; Sim.i_perm := Sim.i_perm i;
     Sim.i_uid := Sim.i_uid i; Sim.i_gid := Sim.i_gid i |}.

(** A write(2) on descriptor [fd]. *)
Definition writesTo (fd : Z) (ev : Event) : Prop :=
  match fst ev with SysWrite fd' _ => fd' = fd | _ => False end.

(** A call that creates no file: anything but an openat(2) that was
    answered without error. *)
Definition createsNothing (ev : Event) : Prop :=
  match fst ev with SysOpenat _ _ _ _ => e1 (snd ev) <> 0 | _ => True end.

(** A string free of path separators. *)
Definition noSeparator (s : string) : Prop :=
  Forall (fun c => filepath.IsPathSeparator c = false) (list_ascii_of_string s).



(** A call that names files inside a directory by single components only:
    no name it passes holds a path separator. *)
Definition componentCall (ev : Event) : Prop :=
  match fst ev with
  | SysOpenat _ p _ _ => noSeparator p
  | SysUnlinkat _ p _ => noSeparator p
  | SysLinkat _ o _ p _ => o = "" /\ noSeparator p
  | SysRenameat _ p _ q => noSeparator p /\ noSeparator q
  | _ => True
  end.

Section Outcomes.
Context {K : Type} {U : Unix K}.

(** [m] returns, in whatever world it starts: it neither panics nor is
    still running when the fuel is spent. *)
Definition returns {A} (m : M (K := K) A) : Prop :=
  forall w, exists a w', m w = Returns a w'.

(** A kernel whose write(2) follows the system call convention: it never
    reports more bytes than it was handed, nor a negative count without an
    error. *)
Definition saneWrite : Prop :=
  forall fd p k,
    r0 (fst (syscall (SysWrite fd p) k)) <= Z.of_nat (List.length p)
    /\ (e1 (fst (syscall (SysWrite fd p) k)) = 0
        -> 0 <= r0 (fst (syscall (SysWrite fd p) k))).
End Outcomes.

(** * Properties *)

Example Dir_abs : filepath.Dir "/tmp/x/testfile.txt" = "/tmp/x".
Proof. reflexivity. Qed.
Example Dir_root_child : filepath.Dir "/tmp" = "/".
Proof. reflexivity. Qed.
Example Dir_root : filepath.Dir "/" = "/".
Proof. reflexivity. Qed.
Example Dir_rel : filepath.Dir "a/b/file" = "a/b".
Proof. reflexivity. Qed.
Example Dir_bare : filepath.Dir "file.txt" = ".".
Proof. reflexivity. Qed.
Example Dir_dot : filepath.Dir "." = ".".
Proof. reflexivity. Qed.
Example Dir_empty : filepath.Dir "" = ".".
Proof. reflexivity. Qed.
Example Dir_dotdot : filepath.Dir "/a/../b/c" = "/b".
Proof. reflexivity. Qed.
Example Dir_updots : filepath.Dir "../../x" = "../..".
Proof. reflexivity. Qed.
Example Dir_trailing : filepath.Dir "/a/b/" = "/a/b".
Proof. reflexivity. Qed.
Example Base_abs : filepath.Base "/tmp/x/testfile.txt" = "testfile.txt".
Proof. reflexivity. Qed.
Example Base_trailing : filepath.Base "/a/b//" = "b".
Proof. reflexivity. Qed.
Example Base_slashes : filepath.Base "///" = "/".
Proof. reflexivity. Qed.
Example Base_empty : filepath.Base "" = ".".
Proof. reflexivity. Qed.

Example Clean_agrees_with_cleantests : agrees filepath.Clean cleantests = true.
Proof. vm_compute. reflexivity. Qed.
Example Dir_agrees_with_dirtests : agrees filepath.Dir dirtests = true.
Proof. vm_compute. reflexivity. Qed.
Example Base_agrees_with_basetests : agrees filepath.Base basetests = true.
Proof. vm_compute. reflexivity. Qed.

(** ** The textual parent

    What [filepath.Dir] does to a path that starts at the root, and to one
    that does not. *)

Section CleanFacts.
Import filepath.
Lemma relative_buf_append b c :
  relative_buf b ->
  (w b = 0%nat -> IsPathSeparator c = false) ->
  relative_buf (append b c).
Proof.
  intros [Hlen Hhead] Hc. unfold relative_buf, append. simpl. split.
  - rewrite length_app, length_firstn. simpl. lia.
  - intros _. destruct (w b) as [| n] eqn:Ew.
    + simpl. auto.
    + destruct (buf b) as [| x l]; [simpl in Hlen; lia |].
      simpl. apply Hhead. lia.
Qed.

Lemma relative_buf_back b : relative_buf b -> relative_buf (back b).
Proof.
  intros [Hlen Hhead]. unfold relative_buf, back. simpl. split; [lia |].
  intros H. apply Hhead. lia.
Qed.

Lemma relative_buf_backtrack fuel : forall b dotdot,
  relative_buf b -> relative_buf (backtrack fuel b dotdot).
Proof.
  induction fuel as [| fuel IH]; intros b dotdot Hb; simpl; [exact Hb |].
  destruct ((dotdot <? w b)%nat && negb (IsPathSeparator (index b (w b))));
    [apply IH, relative_buf_back, Hb | exact Hb].
Qed.

Lemma relative_buf_copy_element fuel p : forall r b,
  relative_buf b -> relative_buf (snd (copy_element fuel p r b)).
Proof.
  induction fuel as [| fuel IH]; intros r b Hb; simpl; [exact Hb |].
  destruct ((r <? List.length p)%nat && negb (IsPathSeparator (at_ p r))) eqn:E;
    [| exact Hb].
  apply IH, relative_buf_append; [exact Hb |].
  intros _. apply andb_true_iff in E. destruct E as [_ E].
  apply negb_true_iff in E. exact E.
Qed.

Lemma relative_buf_clean_loop fuel p : forall r b dotdot,
  relative_buf b -> relative_buf (clean_loop fuel p false r b dotdot).
Proof.
  induction fuel as [| fuel IH]; intros r b dotdot Hb; [exact Hb |].
  cbn [clean_loop]. cbv zeta.
  destruct (r <? List.length p)%nat; [| exact Hb].
  destruct (IsPathSeparator (at_ p r)); [apply IH, Hb |].
  match goal with |- context [if ?c then _ else _] => destruct c end;
    [apply IH, Hb |].
  match goal with |- context [if ?c then _ else _] => destruct c end.
  - destruct (dotdot <? w b)%nat.
    + apply IH, relative_buf_backtrack, relative_buf_back, Hb.
    + cbn [negb]. apply IH.
      assert (H1 : relative_buf (if (0 <? w b)%nat then append b "/" else b)).
      { destruct (0 <? w b)%nat eqn:E; [| exact Hb].
        apply relative_buf_append; [exact Hb |].
        apply Nat.ltb_lt in E. lia. }
      apply relative_buf_append; [apply relative_buf_append; [exact H1 |] |];
        intros _; reflexivity.
  - cbn [negb andb orb].
    set (out1 := if negb (w b =? 0)%nat then append b "/" else b).
    assert (H1 : relative_buf out1).
    { subst out1. destruct (w b =? 0)%nat eqn:E; simpl; [exact Hb |].
      apply relative_buf_append; [exact Hb |].
      apply Nat.eqb_neq in E. lia. }
    pose proof (relative_buf_copy_element (List.length p) p r out1 H1) as H2.
    destruct (copy_element (List.length p) p r out1) as [r' out2].
    apply IH. exact H2.
Qed.

Lemma Clean_list_relative p :
  rooted_list p = false -> rooted_list (Clean_list p) = false.
Proof.
  intros Hp. unfold Clean_list. destruct p as [| c rest]; [reflexivity |].
  simpl in Hp. rewrite Hp.
  set (out := clean_loop _ _ _ _ _ _).
  assert (Hout : relative_buf out).
  { apply relative_buf_clean_loop. split; simpl; lia. }
  destruct (w out =? 0)%nat eqn:E; [reflexivity |].
  apply Nat.eqb_neq in E. destruct Hout as [Hlen Hhead].
  unfold contents. destruct (w out) as [| n]; [lia |].
  destruct (buf out) as [| x l]; [simpl in Hlen; lia |].
  simpl. apply Hhead. lia.
Qed.

Lemma rooted_string_of_list l : rooted (string_of_list_ascii l) = rooted_list l.
Proof. destruct l; reflexivity. Qed.

Lemma rooted_list_of_string s : rooted_list (list_ascii_of_string s) = rooted s.
Proof. destruct s; reflexivity. Qed.

Lemma rooted_list_firstn n l : rooted_list l = false -> rooted_list (firstn n l) = false.
Proof. destruct n, l; simpl; auto. Qed.

Lemma Dir_relative p : rooted p = false -> rooted (Dir p) = false.
Proof.
  intros Hp. unfold Dir, Clean.
  rewrite rooted_string_of_list. apply Clean_list_relative.
  rewrite list_ascii_of_string_of_list_ascii.
  apply rooted_list_firstn. rewrite rooted_list_of_string. exact Hp.
Qed.


(** *** Rooted paths *)

Lemma separator_in_range p i :
  IsPathSeparator (at_ p i) = true -> (i < List.length p)%nat.
Proof.
  intros H. destruct (Nat.lt_ge_cases i (List.length p)) as [Hlt | Hge]; [exact Hlt |].
  unfold at_ in H. rewrite nth_overflow in H by exact Hge. discriminate.
Qed.

Lemma rooted_buf_append b c : rooted_buf b -> rooted_buf (append b c).
Proof.
  intros [[H1 Hlen] Hhead]. unfold rooted_buf, append. simpl. split.
  - rewrite length_app, length_firstn. simpl. lia.
  - destruct (w b) as [| n]; [lia |].
    destruct (buf b) as [| x l]; [simpl in Hlen; lia |]. exact Hhead.
Qed.

Lemma w_append b c : w (append b c) = S (w b).
Proof. reflexivity. Qed.

Lemma backtrack_bounds fuel : forall b dotdot,
  (dotdot <= w b)%nat ->
  buf (backtrack fuel b dotdot) = buf b
  /\ (dotdot <= w (backtrack fuel b dotdot) <= w b)%nat.
Proof.
  induction fuel as [| fuel IH]; intros b dotdot Hd; simpl; [split; [reflexivity | lia] |].
  destruct ((dotdot <? w b)%nat && negb (IsPathSeparator (index b (w b)))) eqn:E;
    [| split; [reflexivity | lia]].
  apply andb_true_iff in E. destruct E as [E _]. apply Nat.ltb_lt in E.
  destruct (IH (back b) dotdot) as [Hb Hw]; [simpl; lia |].
  simpl in *. split; [exact Hb | lia].
Qed.

Lemma copy_element_spec p fuel : forall r b,
  (r <= List.length p)%nat -> (List.length p - r <= fuel)%nat ->
  rooted_buf b ->
  let '(r', b') := copy_element fuel p r b in
  (r <= r' <= List.length p)%nat
  /\ w b' = (w b + (r' - r))%nat
  /\ rooted_buf b'
  /\ (r' = List.length p \/ IsPathSeparator (at_ p r') = true)
  /\ ((r < r')%nat -> IsPathSeparator (at_ p (r' - 1)) = false).
Proof.
  induction fuel as [| fuel IH]; intros r b Hr Hfuel Hb; simpl.
  - refine (conj _ (conj _ (conj Hb (conj _ _)))); try lia; try (left; lia).
  - destruct (r <? List.length p)%nat eqn:Hlt; simpl.
    + apply Nat.ltb_lt in Hlt.
      destruct (IsPathSeparator (at_ p r)) eqn:Hsep; simpl.
      * refine (conj _ (conj _ (conj Hb (conj _ _)))); try lia;
          try (right; exact Hsep).
      * specialize (IH (S r) (append b (at_ p r))).
        destruct (copy_element fuel p (S r) (append b (at_ p r))) as [r' b'].
        destruct IH as (H1 & H2 & H3 & H4 & H5);
          [lia | lia | apply rooted_buf_append, Hb |].
        rewrite w_append in H2.
        refine (conj _ (conj _ (conj H3 (conj H4 _)))); try lia.
        intros _. destruct (Nat.eq_dec r' (S r)) as [-> | Hne].
        -- replace (S r - 1)%nat with r by lia. exact Hsep.
        -- apply H5. lia.
    + apply Nat.ltb_ge in Hlt.
      refine (conj _ (conj _ (conj Hb (conj _ _)))); try lia; try (left; lia).
Qed.

Lemma copy_element_monotone p fuel : forall r b,
  (r <= fst (copy_element fuel p r b))%nat.
Proof.
  induction fuel as [| fuel IH]; intros r b; simpl; [lia |].
  destruct ((r <? List.length p)%nat && negb (IsPathSeparator (at_ p r)));
    [| simpl; lia].
  specialize (IH (S r) (append b (at_ p r))). lia.
Qed.

Lemma copy_element_progress p fuel r b :
  (r < List.length p)%nat -> IsPathSeparator (at_ p r) = false ->
  (r < fst (copy_element (S fuel) p r b))%nat.
Proof.
  intros Hlt Hsep. simpl.
  apply Nat.ltb_lt in Hlt. rewrite Hlt, Hsep. simpl.
  pose proof (copy_element_monotone p fuel (S r) (append b (at_ p r))). lia.
Qed.

Lemma rooted_state_result p r b : rooted_state p r b -> rooted_result p b.
Proof.
  intros (Hb & Hr & Hw & Hstrict & _). split; [exact Hb |]. split; [lia |].
  intros Hn Hsep.
  destruct (Nat.eq_dec r (List.length p)) as [-> | Hne]; [apply Hstrict; assumption | lia].
Qed.

Lemma rooted_clean_loop fuel p : forall r b,
  rooted_state p r b -> rooted_result p (clean_loop fuel p true r b 1).
Proof.
  induction fuel as [| fuel IH]; intros r b Hst;
    [exact (rooted_state_result _ _ _ Hst) |].
  cbn [clean_loop]. cbv zeta.
  destruct (r <? List.length p)%nat eqn:Hlt;
    [| exact (rooted_state_result _ _ _ Hst)].
  apply Nat.ltb_lt in Hlt.
  destruct Hst as (Hb & Hr & Hw & Hstrict & Hstart).
  destruct (IsPathSeparator (at_ p r)) eqn:Hsep.
  { apply IH. split; [exact Hb |]. split; [lia |]. split; [lia |].
    split; [intros; lia |].
    right. right. replace (S r - 1)%nat with r by lia. exact Hsep. }
  match goal with |- context [if ?c then _ else _] => destruct c eqn:Hdot end.
  { apply IH. split; [exact Hb |]. split; [lia |]. split; [lia |].
    split; [intros; lia |].
    apply andb_true_iff in Hdot. destruct Hdot as [_ Hdot].
    apply orb_true_iff in Hdot. destruct Hdot as [Hdot | Hdot].
    - left. apply Nat.eqb_eq in Hdot. exact Hdot.
    - right. left. exact Hdot. }
  match goal with |- context [if ?c then _ else _] => destruct c eqn:Hdd end.
  { apply andb_true_iff in Hdd. destruct Hdd as [Hdd Hend].
    apply andb_true_iff in Hdd. destruct Hdd as [_ Hnext].
    assert (Hr2 : (r + 2 <= List.length p)%nat).
    { apply orb_true_iff in Hend. destruct Hend as [Hend | Hend].
      - apply Nat.eqb_eq in Hend. lia.
      - apply separator_in_range in Hend. lia. }
    assert (Hstart' : (r + 2)%nat = List.length p
                      \/ IsPathSeparator (at_ p (r + 2)) = true
                      \/ IsPathSeparator (at_ p (r + 2 - 1)) = true).
    { apply orb_true_iff in Hend. destruct Hend as [Hend | Hend].
      - left. apply Nat.eqb_eq in Hend. exact Hend.
      - right. left. exact Hend. }
    destruct (1 <? w b)%nat eqn:Hw1.
    - apply Nat.ltb_lt in Hw1.
      destruct (backtrack_bounds (w b) (back b) 1) as [Hbuf Hbw]; [simpl; lia |].
      simpl in Hbuf, Hbw.
      apply IH. split.
      + split; [rewrite Hbuf; destruct Hb as [[? ?] ?]; lia |].
        rewrite Hbuf. exact (proj2 Hb).
      + split; [lia |]. split; [lia |]. split; [intros; lia | exact Hstart'].
    - cbn [negb]. apply IH. split; [exact Hb |]. split; [lia |].
      split; [lia |]. split; [intros; lia | exact Hstart']. }
  cbn [negb andb orb].
  set (out1 := if negb (w b =? 1)%nat || false then append b "/" else b).
  assert (H1 : rooted_buf out1 /\ (w out1 <= r)%nat).
  { subst out1. destruct (w b =? 1)%nat eqn:E; simpl.
    - split; [exact Hb |]. lia.
    - apply Nat.eqb_neq in E. split; [apply rooted_buf_append, Hb |].
      rewrite ?w_append.
      assert (Hprev : IsPathSeparator (at_ p (r - 1)) = true).
      { destruct Hstart as [H | [H | H]]; [lia | congruence | exact H]. }
      destruct Hb as [[Hb1 _] _].
      assert ((w b < r)%nat) by (apply Hstrict; [lia | exact Hprev]). lia. }
  destruct H1 as [Hb1 Hw1].
  pose proof (copy_element_spec p (List.length p) r out1) as Hc.
  destruct (copy_element (List.length p) p r out1) as [r' out2] eqn:Ec.
  destruct Hc as (Hr' & Hw' & Hb' & Hstop & Hlast); [lia | lia | exact Hb1 |].
  assert (Hprog : (r < r')%nat).
  { destruct (List.length p) as [| n] eqn:En; [lia |].
    pose proof (copy_element_progress p n r out1) as Hp.
    rewrite En in Hp. rewrite Ec in Hp. apply Hp; [lia | exact Hsep]. }
  apply IH. split; [exact Hb' |]. split; [lia |]. split; [lia |].
  split.
  - intros _ Hs. rewrite Hlast in Hs by exact Hprog. discriminate.
  - destruct Hstop as [H | H]; [left; exact H | right; left; exact H].
Qed.


Lemma Clean_list_rooted p :
  rooted_list p = true ->
  rooted_list (Clean_list p) = true
  /\ (List.length (Clean_list p) <= List.length p)%nat
  /\ ((2 <= List.length p)%nat ->
      IsPathSeparator (at_ p (List.length p - 1)) = true ->
      (List.length (Clean_list p) < List.length p)%nat).
Proof.
  intros Hp. unfold Clean_list. destruct p as [| c rest]; [discriminate |].
  simpl in Hp. rewrite Hp.
  set (p := c :: rest) in *.
  set (out := clean_loop _ _ _ _ _ _).
  assert (Hout : rooted_result p out).
  { apply rooted_clean_loop. split; [split; [simpl; lia | reflexivity] |].
    split; [simpl; lia |]. split; [simpl; lia |]. split; [intros; lia |].
    right. right. exact Hp. }
  destruct Hout as ([[H1 Hlen] Hhead] & Hw & Hstrict).
  destruct (w out =? 0)%nat eqn:E; [apply Nat.eqb_eq in E; lia |].
  unfold contents.
  assert (Hl : List.length (firstn (w out) (buf out)) = w out)
    by (rewrite length_firstn; lia).
  rewrite Hl. split; [| split; [exact Hw | exact Hstrict]].
  destruct (w out) as [| n]; [lia |].
  destruct (buf out) as [| x l]; [simpl in Hlen; lia |]. exact Hhead.
Qed.

Lemma last_separator_rooted l : forall i,
  IsPathSeparator (at_ l 0) = true -> (1 <= i)%nat ->
  (1 <= last_separator l i <= i)%nat
  /\ IsPathSeparator (at_ l (last_separator l i - 1)) = true.
Proof.
  induction i as [| i IH]; intros H0 Hi; [lia |].
  simpl. destruct (IsPathSeparator (at_ l i)) eqn:E.
  - split; [lia |]. replace (S i - 1)%nat with i by lia. exact E.
  - destruct i as [| i']; [congruence |].
    destruct IH as [Hb Hs]; [exact H0 | lia |]. split; [lia | exact Hs].
Qed.

Lemma length_list_ascii_of_string s :
  List.length (list_ascii_of_string s) = String.length s.
Proof. induction s; simpl; congruence. Qed.

Lemma length_string_of_list_ascii l :
  String.length (string_of_list_ascii l) = List.length l.
Proof. induction l; simpl; congruence. Qed.

Lemma at_firstn l m i : (i < m)%nat -> at_ (firstn m l) i = at_ l i.
Proof.
  revert m i. induction l as [| x l IH]; intros m i Hi.
  - rewrite firstn_nil. reflexivity.
  - destruct m as [| m]; [lia |]. destruct i as [| i]; [reflexivity |].
    simpl. apply IH. lia.
Qed.

(** The textual parent of a rooted path is rooted, and shorter unless the
    path is the root. *)
Lemma Dir_rooted p :
  rooted p = true ->
  rooted (Dir p) = true
  /\ (p <> "/" -> (String.length (Dir p) < String.length p)%nat).
Proof.
  intros Hp. unfold Dir, Clean.
  rewrite rooted_string_of_list, length_string_of_list_ascii,
    list_ascii_of_string_of_list_ascii.
  rewrite <- (length_list_ascii_of_string p).
  rewrite <- rooted_list_of_string in Hp.
  assert (Hl : p = string_of_list_ascii (list_ascii_of_string p))
    by (symmetry; apply string_of_list_ascii_of_string).
  generalize dependent (list_ascii_of_string p). intros l Hp Hl.
  assert (H0 : IsPathSeparator (at_ l 0) = true)
    by (destruct l; [discriminate | exact Hp]).
  assert (Hn : (1 <= List.length l)%nat)
    by (destruct l; [discriminate | simpl; lia]).
  destruct (last_separator_rooted l (List.length l) H0 Hn) as [Hm Hsep].
  set (m := last_separator l (List.length l)) in *.
  assert (Hq : rooted_list (firstn m l) = true).
  { destruct l; [discriminate |]. destruct m; [lia |]. exact Hp. }
  assert (Hqlen : List.length (firstn m l) = m) by (rewrite length_firstn; lia).
  destruct (Clean_list_rooted (firstn m l) Hq) as (Hr & Hle & Hstrict).
  rewrite Hqlen in Hle, Hstrict.
  split; [exact Hr |]. intros Hne.
  destruct (Nat.le_gt_cases 2 m) as [H2 | H1].
  - assert (List.length (Clean_list (firstn m l)) < m)%nat; [| lia].
    apply Hstrict; [exact H2 |]. rewrite at_firstn by lia. exact Hsep.
  - assert (List.length l <> 1%nat); [| lia].
    intros Hone. apply Hne. rewrite Hl.
    destruct l as [| c rest]; [discriminate |].
    destruct rest; [| discriminate]. simpl.
    simpl in Hp. unfold IsPathSeparator in Hp. apply Ascii.eqb_eq in Hp.
    subst c. reflexivity.
Qed.

End CleanFacts.

(** ** The error chain and the fallback classification *)

Lemma errors_As_Errno_wraps (err : error) (errno : unix.Errno) :
  errors_As_Errno err = Some errno <-> wraps err (ErrnoError errno).
Proof.
  split.
  - induction err as [e | msg | msg inner IH | op path inner IH]; simpl; intros H.
    + injection H as ->. apply wraps_here.
    + discriminate.
    + eapply wraps_step; [reflexivity | auto].
    + eapply wraps_step; [reflexivity | auto].
  - intros H. remember (ErrnoError errno) as tgt eqn:Etgt.
    induction H as [err | err inner e Hun _ IH]; subst.
    + reflexivity.
    + destruct err; simpl in Hun; try discriminate;
        injection Hun as ->; simpl; auto.
Qed.

Lemma errors_Is_Errno_wraps (err : error) (target : unix.Errno) :
  errors_Is_Errno err target = true <-> wraps err (ErrnoError target).
Proof.
  split.
  - induction err as [e | msg | msg inner IH | op path inner IH]; simpl; intros H.
    + apply Z.eqb_eq in H. subst. apply wraps_here.
    + discriminate.
    + eapply wraps_step; [reflexivity | auto].
    + eapply wraps_step; [reflexivity | auto].
  - intros H. remember (ErrnoError target) as tgt eqn:Etgt.
    induction H as [err | err inner e Hun _ IH]; subst.
    + simpl. apply Z.eqb_refl.
    + destruct err; simpl in Hun; try discriminate;
        injection Hun as ->; simpl; auto.
Qed.

Lemma fallbackNeeded_iff (err : option error) :
  fallbackNeeded err = true <-> unsupportedFeature err.
Proof.
  unfold fallbackNeeded, unsupportedFeature, fallbackErrnos. split.
  - destruct err as [e |]; [| discriminate].
    destruct (errors_As_Errno e) as [errno |] eqn:Has; [| discriminate].
    intros H. exists e, errno. split; [reflexivity |].
    split; [apply errors_As_Errno_wraps; exact Has |].
    rewrite !orb_true_iff, !Z.eqb_eq in H. simpl. intuition.
  - intros (e & errno & -> & Hw & Hin).
    apply errors_As_Errno_wraps in Hw. rewrite Hw.
    rewrite !orb_true_iff, !Z.eqb_eq. simpl in Hin. intuition.
Qed.

Lemma fallbackNeeded_nil : fallbackNeeded None = false.
Proof. reflexivity. Qed.

(** ** Symbolic execution

    [run_step H] advances a run [H : m w = ...] by one branch point: the
    reply of the next system call, the test of an error number, or a
    condition of the program. *)

Ltac unfold_prog H :=
  unfold syncDirectory, os_NewFile, File_Sync, File_Close, openDirSecure,
    unix_Openat2, unix_Open, unix_Openat, unix_Fstat,
    unix_Close, unix_Write, unix_Fsync, unix_Fchown, unix_Unlinkat,
    unix_Linkat, unix_Renameat,
    orReturn, defer_, bind, call, ret, out_of_fuel in H; simpl in H.

Ltac run_step H :=
  match type of H with
  | context [syscall ?s ?k] =>
      let r := fresh "r" in
      let k' := fresh "k" in
      destruct (syscall s k) as [r k'] eqn:?; simpl in H
  | context [errnoErr ?e] =>
      unfold errnoErr in H; destruct (e =? 0) eqn:?; simpl in H
  | context [if ?b then _ else _] => destruct b eqn:?; simpl in H
  end.

Ltac unfold_goal :=
  unfold syncDirectory, os_NewFile, File_Sync, File_Close, openDirSecure,
    unix_Openat2, unix_Open, unix_Openat, unix_Fstat,
    unix_Close, unix_Write, unix_Fsync, unix_Fchown, unix_Unlinkat,
    unix_Linkat, unix_Renameat,
    orReturn, defer_, bind, call, ret, out_of_fuel; simpl.

Ltac run_goal :=
  match goal with
  | |- context [syscall ?s ?k] =>
      let r := fresh "r" in
      let k' := fresh "k" in
      destruct (syscall s k) as [r k'] eqn:?; simpl
  | |- context [errnoErr ?e] =>
      unfold errnoErr; destruct (e =? 0) eqn:?; simpl
  | |- context [if ?b then _ else _] => destruct b eqn:?; simpl
  end.

Section Properties.
Context {K : Type} {U : Unix K}.

Local Abbreviation emits := (@emits K).
Local Abbreviation record_call := (@record_call K).
Local Abbreviation checkDirectory := (@checkDirectory K U).

Implicit Types (w : World (K := K)) (opts : WriteOptions).

(** *** The dispatcher *)

(** C1. The dispatcher runs the anonymous-temp strategy first.  When that
    attempt returns an error that is, or wraps, EOPNOTSUPP, EINVAL, ENOTDIR
    or EPERM, the result of the call is that of the named-temp strategy,
    run from scratch in the world the first attempt left; for every other
    outcome (success or another error) the first attempt's outcome is
    returned unchanged.  The classification looks at the result of the
    whole first attempt only. *)
Theorem dispatcher_falls_back_exactly_on_unsupported
        (fuel : nat) (path : string) (data : list byte) opts w
        (err : option error) w1
        (Hfirst : ultraParanoidWrite fuel path data opts w = Returns err w1) :
  (unsupportedFeature err ->
   secureAtomicWriteInternal fuel path data opts w
   = paranoidAtomicWrite fuel path data opts w1)
  /\ (~ unsupportedFeature err ->
      secureAtomicWriteInternal fuel path data opts w = Returns err w1).
Proof.
  unfold secureAtomicWriteInternal, bind. rewrite Hfirst.
  split; intros H.
  - apply fallbackNeeded_iff in H. rewrite H. reflexivity.
  - destruct (fallbackNeeded err) eqn:Hfb; [| reflexivity].
    exfalso. apply H, fallbackNeeded_iff, Hfb.
Qed.

(** *** The directory opener *)

(** C7. The directory opener first issues openat2 with O_PATH|O_DIRECTORY
    and the resolve flags no-symlinks and no-magiclinks, plus no-xdev when
    confinement is asked for.  If that call succeeds its descriptor is the
    result.  If it fails with ENOSYS, and only then, open(2) with
    O_RDONLY|O_DIRECTORY|O_NOFOLLOW is issued and its result returned.
    Any other error is returned as it is, with descriptor -1 and without
    a second call. *)
Theorem openDirSecure_primary_then_enosys_fallback
        (path : string) (noCrossDevice : bool) w :
  let how := openDirHow noCrossDevice in
  Z.testbit (unix.Resolve how) 2 = true
  /\ Z.testbit (unix.Resolve how) 1 = true
  /\ Z.testbit (unix.Resolve how) 0 = noCrossDevice
  /\ let c1 := SysOpenat2 unix.AT_FDCWD path how in
     let '(r1, k1) := syscall c1 (kernel w) in
     let w1 := record_call w c1 r1 k1 in
     let c2 := SysOpen path 0x30000 0 in
     let '(r2, k2) := syscall c2 k1 in
     let w2 := record_call w1 c2 r2 k2 in
     openDirSecure path noCrossDevice w
     = if e1 r1 =? 0 then Returns (r0 r1, None) w1
       else if e1 r1 =? unix.ENOSYS then Returns (r0 r2, errnoErr (e1 r2)) w2
       else Returns (-1, Some (ErrnoError (e1 r1))) w1.
Proof.
  intros how. repeat split; try (destruct noCrossDevice; reflexivity).
  unfold openDirSecure, unix_Openat2, unix_Open, bind, call, ret, record_call.
  replace (if noCrossDevice
           then Z.lor (Z.lor unix.RESOLVE_NO_SYMLINKS unix.RESOLVE_NO_MAGICLINKS)
                      unix.RESOLVE_NO_XDEV
           else Z.lor unix.RESOLVE_NO_SYMLINKS unix.RESOLVE_NO_MAGICLINKS)
    with (if noCrossDevice then 7 else 6) by (destruct noCrossDevice; reflexivity).
  change (Z.lor unix.O_PATH unix.O_DIRECTORY) with 0x210000.
  change (Z.lor (Z.lor unix.O_RDONLY unix.O_DIRECTORY) unix.O_NOFOLLOW) with 0x30000.
  fold (openDirHow noCrossDevice). subst how.
  destruct (syscall (SysOpenat2 unix.AT_FDCWD path (openDirHow noCrossDevice)) (kernel w))
    as [r1 k1] eqn:E1.
  simpl. unfold errnoErr.
  destruct (syscall (SysOpen path 0x30000 0) k1) as [r2 k2] eqn:E2.
  destruct (e1 r1 =? 0) eqn:Hz; [reflexivity |].
  simpl. destruct (e1 r1 =? unix.ENOSYS) eqn:Hs; [| reflexivity].
  simpl. rewrite E2. reflexivity.
Qed.

(** *** The entry points *)

(** C8. The privileged entry point is the default entry point: both build
    the options (durable sync on, ancestor verification off, mount
    confinement on, owner sentinels -1) and call the same internal write
    on them.  The strict entry point calls the same internal write on the
    same options with only the verify-all flag turned on. *)
Theorem privileged_entry_point_is_default
        (fuel : nat) (path : string) (data : list byte) (perm : Z) :
  SecureAtomicWriteRoot fuel path data perm = SecureAtomicWrite fuel path data perm
  /\ SecureAtomicWrite fuel path data perm
     = secureAtomicWriteInternal fuel path data (defaultOptions perm)
  /\ SecureAtomicWriteRootStrict fuel path data perm
     = secureAtomicWriteInternal fuel path data
                                 (withVerifyAll (defaultOptions perm) true)
  /\ (forall opts, SecureAtomicWriteWithOptions fuel path data opts
                   = secureAtomicWriteInternal fuel path data opts).
Proof. repeat split. Qed.

(** *** What a computation adds to the trace *)

Lemma emits_ret {A} P (a : A) : emits P (ret a).
Proof.
  intros w a' w' H. unfold ret in H. injection H as _ <-.
  exists []. rewrite app_nil_r. auto.
Qed.

Lemma emits_panic {A} P msg : emits P (panic (A := A) msg).
Proof. intros w a w' H. discriminate. Qed.

Lemma emits_out_of_fuel {A} P : emits P (out_of_fuel (A := A)).
Proof. intros w a w' H. discriminate. Qed.

Lemma emits_bind {A B} P (m : M A) (k : A -> M B) :
  emits P m -> (forall a, emits P (k a)) -> emits P (bind m k).
Proof.
  intros Hm Hk w b w' H. unfold bind in H.
  destruct (m w) as [a w1 | |] eqn:Em; try discriminate.
  destruct (Hm _ _ _ Em) as (evs1 & Ht1 & HP1).
  destruct (Hk a _ _ _ H) as (evs2 & Ht2 & HP2).
  exists (evs1 ++ evs2)%list. split.
  - rewrite Ht2, Ht1, app_assoc. reflexivity.
  - apply Forall_app. auto.
Qed.

Lemma emits_call P (s : Syscall) : (forall r, P (s, r)) -> emits P (call s).
Proof.
  intros HP w r w' H. unfold call in H.
  destruct (syscall s (kernel w)) as [r1 k1]. injection H as <- <-.
  exists [(s, r1)]. simpl. auto.
Qed.

Lemma emits_defer {A B} P (d : M B) (body : M A) :
  emits P d -> emits P body -> emits P (defer_ d body).
Proof.
  intros Hd Hb. unfold defer_.
  apply emits_bind; [exact Hb | intros a].
  apply emits_bind; [exact Hd | intros _]. apply emits_ret.
Qed.

Lemma emits_orReturn P err msg k :
  emits P k -> emits P (orReturn err msg k).
Proof. intros Hk. destruct err; simpl; [apply emits_ret | exact Hk]. Qed.

(** One step of a proof of [emits]: a structural rule, a case split on
    what the program branches on, or the unfolding of a wrapper. *)
Ltac emits_step :=
  match goal with
  | |- emits _ (ret _) => apply emits_ret
  | |- emits _ (panic _) => apply emits_panic
  | |- emits _ out_of_fuel => apply emits_out_of_fuel
  | |- emits _ (bind _ _) => apply emits_bind; [| intros ?]
  | |- emits _ (call _) => apply emits_call; intros ?
  | |- emits _ (defer_ _ _) => apply emits_defer
  | |- emits _ (orReturn _ _ _) => apply emits_orReturn
  | |- emits _ (if ?b then _ else _) => destruct b
  | |- emits _ (match ?x with _ => _ end) => destruct x
  | |- emits _ (let _ := _ in _) => cbv zeta
  | |- emits _ ?m =>
      progress unfold unix_Openat2, unix_Open, unix_Openat, unix_Fstat,
        unix_Close, unix_Write, unix_Fsync, unix_Fchown, unix_Unlinkat,
        unix_Linkat, unix_Renameat, File_Sync, File_Close, syncDirectory,
        openDirSecure
  end.

Ltac emits_auto tac := repeat emits_step; try solve [tac].

(** Calls of one kind only. *)
Lemma emits_pfd_Write P fuel fd p nn :
  (forall q r, P (SysWrite fd q, r)) -> emits P (pfd_Write fuel fd p nn).
Proof.
  intros HP. revert nn.
  induction fuel as [| fuel IH]; intros nn; simpl.
  - apply emits_out_of_fuel.
  - emits_auto ltac:(auto).
Qed.

Lemma emits_File_Write P f b :
  (forall fd q r, P (SysWrite fd q, r)) -> emits P (File_Write f b).
Proof.
  intros HP. unfold File_Write.
  destruct f as [f |]; [| apply emits_ret].
  apply emits_bind; [apply emits_pfd_Write; auto | intros [n e]].
  emits_auto ltac:(auto).
Qed.

(** *** The ancestor verifier and mount confinement *)

Lemma verifyDirectorySecure_confined fuel current verifyAll :
  emits confined (verifyDirectorySecure fuel current verifyAll).
Proof.
  revert current.
  induction fuel as [| fuel IH]; intros current; simpl.
  - apply emits_out_of_fuel.
  - emits_auto ltac:(exact I || reflexivity || apply IH).
Qed.

Lemma verifyDirectorySecure_errors fuel :
  forall current verifyAll w e w',
    verifyDirectorySecure fuel current verifyAll w = Returns (Some e) w' ->
    verifierError e.
Proof.
  induction fuel as [| fuel IH]; intros current verifyAll w e w' H.
  - discriminate.
  - simpl in H. unfold_prog H.
    repeat run_step H; try discriminate;
      try (injection H as <- _; constructor).
    all: eapply IH; eauto.
Qed.

(** The loop, unrolled once: a failed check ends the walk with its error;
    after a passed check the walk ends if [verifyAll] is off or [current]
    is the root, and goes on with the textual parent otherwise. *)
Lemma verifyDirectorySecure_unroll fuel current verifyAll w :
  verifyDirectorySecure (S fuel) current verifyAll w
  = match checkDirectory current w with
    | Returns (Some e) w1 => Returns (Some e) w1
    | Returns None w1 =>
        if negb verifyAll || String.eqb current "/" then Returns None w1
        else verifyDirectorySecure fuel (filepath.Dir current) verifyAll w1
    | Panics msg => Panics msg
    | OutOfFuel => OutOfFuel
    end.
Proof.
  unfold checkDirectory. simpl. unfold_goal.
  repeat run_goal; reflexivity.
Qed.

(** Both strategies start with the verifier when [VerifyAll] is set, and
    return its error at once. *)
Lemma ultraParanoidWrite_verifier_error fuel path data opts w e w1 :
  VerifyAll opts = true ->
  verifyDirectorySecure fuel (filepath.Dir path) true w = Returns (Some e) w1 ->
  ultraParanoidWrite fuel path data opts w = Returns (Some e) w1.
Proof.
  intros Hva Hv. unfold ultraParanoidWrite, bind. rewrite Hva, Hv. reflexivity.
Qed.

Lemma paranoidAtomicWrite_verifier_error fuel path data opts w e w1 :
  VerifyAll opts = true ->
  verifyDirectorySecure fuel (filepath.Dir path) true w = Returns (Some e) w1 ->
  paranoidAtomicWrite fuel path data opts w = Returns (Some e) w1.
Proof.
  intros Hva Hv. unfold paranoidAtomicWrite, bind. rewrite Hva, Hv. reflexivity.
Qed.

(** A walk that does not end keeps the whole call from returning. *)
Lemma secureAtomicWriteInternal_verifier_out_of_fuel fuel path data opts w :
  VerifyAll opts = true ->
  verifyDirectorySecure fuel (filepath.Dir path) true w = OutOfFuel ->
  secureAtomicWriteInternal fuel path data opts w = OutOfFuel.
Proof.
  intros Hva Hv.
  unfold secureAtomicWriteInternal, ultraParanoidWrite, bind.
  rewrite Hva, Hv. reflexivity.
Qed.

Lemma ultraParanoidWrite_noFstat fuel path data opts :
  VerifyAll opts = false -> emits noFstat (ultraParanoidWrite fuel path data opts).
Proof.
  intros Hva. unfold ultraParanoidWrite. rewrite Hva.
  emits_auto ltac:(exact I).
Qed.

Lemma paranoidAtomicWrite_noFstat fuel path data opts :
  VerifyAll opts = false -> emits noFstat (paranoidAtomicWrite fuel path data opts).
Proof.
  intros Hva. unfold paranoidAtomicWrite. rewrite Hva.
  repeat (emits_step
          || (apply emits_File_Write; intros; exact I));
    try exact I.
Qed.

Lemma secureAtomicWriteInternal_noFstat fuel path data opts :
  VerifyAll opts = false ->
  emits noFstat (secureAtomicWriteInternal fuel path data opts).
Proof.
  intros Hva. unfold secureAtomicWriteInternal.
  apply emits_bind; [apply ultraParanoidWrite_noFstat; exact Hva | intros err].
  destruct (fallbackNeeded err);
    [apply paranoidAtomicWrite_noFstat; exact Hva | apply emits_ret].
Qed.

(** C2, as amended.  A call whose VerifyAll flag is off verifies no
    directory at all: it never reads the owner or the mode of any
    directory, the immediate parent included.  Only a call with VerifyAll
    on runs the verifier, before anything else, and a rejection is what
    the strategy returns.  The verifier itself checks its starting
    directory and, asked for one level only, stops there; asked for all
    ancestors it goes on with the textual parent after every passed check
    until it has checked the root. *)
Theorem verification_runs_only_with_VerifyAll
        (fuel : nat) (path : string) (data : list byte) opts :
  (VerifyAll opts = false ->
   emits noFstat (secureAtomicWriteInternal fuel path data opts))
  /\ (VerifyAll opts = true ->
      forall w e w1,
        verifyDirectorySecure fuel (filepath.Dir path) true w = Returns (Some e) w1 ->
        ultraParanoidWrite fuel path data opts w = Returns (Some e) w1
        /\ paranoidAtomicWrite fuel path data opts w = Returns (Some e) w1)
  /\ (forall n current w,
        verifyDirectorySecure (S n) current false w = checkDirectory current w)
  /\ (forall n current w,
        verifyDirectorySecure (S n) current true w
        = match checkDirectory current w with
          | Returns None w1 =>
              if String.eqb current "/" then Returns None w1
              else verifyDirectorySecure n (filepath.Dir current) true w1
          | other => other
          end).
Proof.
  split; [apply secureAtomicWriteInternal_noFstat |].
  split; [| split].
  - intros Hva w e w1 Hv. split.
    + apply ultraParanoidWrite_verifier_error; assumption.
    + apply paranoidAtomicWrite_verifier_error; assumption.
  - intros n current w. rewrite verifyDirectorySecure_unroll. simpl.
    destruct (checkDirectory current w) as [[e |] w1 | |]; reflexivity.
  - intros n current w. rewrite verifyDirectorySecure_unroll. simpl.
    destruct (checkDirectory current w) as [[e |] w1 | |]; reflexivity.
Qed.

(** *** Verifier failures and the fallback *)

Lemma fallbackNeeded_ErrorString msg : fallbackNeeded (Some (ErrorString msg)) = false.
Proof. reflexivity. Qed.

Lemma fallbackNeeded_WrapError msg errno :
  fallbackNeeded (Some (WrapError msg (ErrnoError errno)))
  = existsb (Z.eqb errno) fallbackErrnos.
Proof. simpl. rewrite orb_false_r, !orb_assoc. reflexivity. Qed.

(** C5, as amended.  When the ancestor verifier fails, its error is
    either one of its two rejections (not owned by root; writable by
    others without the sticky bit), which carry no error number, or a
    failure to open or fstat a directory, which wraps the error number of
    the call.  A rejection always surfaces directly, without fallback.  A
    failure to open or fstat surfaces directly unless the error number it
    wraps is EOPNOTSUPP, EINVAL, ENOTDIR or EPERM; for these four the
    dispatcher does run the named-temp strategy, from the world the first
    attempt left. *)
Theorem verifier_failure_surfaces_unless_fallback_errno
        (fuel : nat) (path : string) (data : list byte) opts w e w1
        (Hva : VerifyAll opts = true)
        (Hv : verifyDirectorySecure fuel (filepath.Dir path) true w
              = Returns (Some e) w1) :
  verifierError e
  /\ (forall msg, e = ErrorString msg ->
      secureAtomicWriteInternal fuel path data opts w = Returns (Some e) w1)
  /\ (forall msg errno, e = WrapError msg (ErrnoError errno) ->
      secureAtomicWriteInternal fuel path data opts w
      = if existsb (Z.eqb errno) fallbackErrnos
        then paranoidAtomicWrite fuel path data opts w1
        else Returns (Some e) w1).
Proof.
  pose proof (ultraParanoidWrite_verifier_error _ _ data _ _ _ _ Hva Hv) as Hu.
  split; [| split].
  - exact (verifyDirectorySecure_errors _ _ _ _ _ _ Hv).
  - intros msg ->. unfold secureAtomicWriteInternal, bind. rewrite Hu.
    reflexivity.
  - intros msg errno ->. unfold secureAtomicWriteInternal, bind. rewrite Hu.
    rewrite fallbackNeeded_WrapError.
    destruct (existsb (Z.eqb errno) fallbackErrnos); reflexivity.
Qed.

(** *** Mount confinement of the verifier *)

Lemma verifyDirectorySecure_EXDEV fuel current verifyAll w :
  let c := SysOpenat2 unix.AT_FDCWD current (openDirHow true) in
  e1 (fst (syscall c (kernel w))) = unix.EXDEV ->
  verifyDirectorySecure (S fuel) current verifyAll w
  = Returns (Some (WrapError ("open directory " ++ current) (ErrnoError unix.EXDEV)))
            (record_call w c (fst (syscall c (kernel w))) (snd (syscall c (kernel w)))).
Proof.
  intros c He. simpl. unfold_goal. fold (openDirHow true). fold c.
  destruct (syscall c (kernel w)) as [r k1]. simpl in *.
  unfold errnoErr. rewrite He. reflexivity.
Qed.

(** C9.  The ancestor verifier takes no confinement option: every
    openat2 it issues carries RESOLVE_NO_XDEV, whatever NoCrossDevice the
    caller chose.  So at any directory of the walk, when openat2 exists
    and refuses the directory for crossing a mount point (EXDEV), the
    verifier fails with that error; and with VerifyAll on such a failure
    is the result of the whole call, also when NoCrossDevice is off. *)
Theorem verifier_confines_whatever_NoCrossDevice
        (fuel : nat) (path : string) (data : list byte) opts
        (Hva : VerifyAll opts = true) :
  (forall n current verifyAll,
      emits confined (verifyDirectorySecure n current verifyAll))
  /\ (forall n current verifyAll w,
        let c := SysOpenat2 unix.AT_FDCWD current (openDirHow true) in
        e1 (fst (syscall c (kernel w))) = unix.EXDEV ->
        verifyDirectorySecure (S n) current verifyAll w
        = Returns (Some (WrapError ("open directory " ++ current)
                                   (ErrnoError unix.EXDEV)))
                  (record_call w c (fst (syscall c (kernel w)))
                               (snd (syscall c (kernel w)))))
  /\ (forall current w w1,
        verifyDirectorySecure fuel (filepath.Dir path) true w
        = Returns (Some (WrapError ("open directory " ++ current)
                                   (ErrnoError unix.EXDEV))) w1 ->
        secureAtomicWriteInternal fuel path data opts w
        = Returns (Some (WrapError ("open directory " ++ current)
                                   (ErrnoError unix.EXDEV))) w1).
Proof.
  split; [intros; apply verifyDirectorySecure_confined |].
  split; [intros; apply verifyDirectorySecure_EXDEV; assumption |].
  intros current w w1 Hv.
  unfold secureAtomicWriteInternal, bind.
  rewrite (ultraParanoidWrite_verifier_error _ _ data _ _ _ _ Hva Hv).
  reflexivity.
Qed.

(** *** The temporary name of the fallback *)

Lemma string_length_append (a b : string) :
  String.length (a ++ b) = (String.length a + String.length b)%nat.
Proof. induction a as [| c a IH]; simpl; congruence. Qed.

Lemma tmpName_neq_baseName (base : string) : base <> "." ++ base ++ ".tmp".
Proof.
  intros H. apply (f_equal String.length) in H.
  rewrite !string_length_append in H. simpl in H. lia.
Qed.

Lemma tmpName_neq_empty (base : string) : "" <> "." ++ base ++ ".tmp".
Proof. discriminate. Qed.

(** The anonymous-temp strategy never names the fallback's temporary
    file. *)
Lemma ultraParanoidWrite_avoids_tmpName fuel path data opts :
  VerifyAll opts = false ->
  emits (avoidsName ("." ++ filepath.Base path ++ ".tmp"))
        (ultraParanoidWrite fuel path data opts).
Proof.
  intros Hva. unfold ultraParanoidWrite. rewrite Hva.
  pose proof (tmpName_neq_baseName (filepath.Base path)) as Hb.
  pose proof (tmpName_neq_empty (filepath.Base path)) as He.
  emits_auto ltac:(unfold avoidsName; simpl; auto).
Qed.

(** *** Descriptors *)

(** A durable write through the anonymous-temp strategy that succeeds
    ends by closing the directory descriptor, the temporary file's
    descriptor, and the directory descriptor again: once through the
    [os.File] made from it, once by the deferred [unix.Close]. *)
Lemma ultraParanoidWrite_closes_directory_twice fuel path data opts w w' :
  Sync opts = true ->
  ultraParanoidWrite fuel path data opts w = Returns None w' ->
  exists pre dirFd tmpFd ra rb rc,
    trace w' = (pre ++ [(SysClose dirFd, ra); (SysClose tmpFd, rb);
                        (SysClose dirFd, rc)])%list.
Proof.
  intros Hs H. unfold ultraParanoidWrite in H. unfold bind at 1 in H.
  destruct ((if VerifyAll opts
             then verifyDirectorySecure fuel (filepath.Dir path) true
             else ret None) w) as [[e |] w0 | |]; try discriminate.
  rewrite Hs in H. unfold_prog H.
  repeat run_step H; try discriminate.
  all: injection H as <-; cbn [trace].
  all: match goal with
       | |- context [(((?X ++ [(SysClose ?d, ?ra)]) ++ [(SysClose ?t, ?rb)])
                        ++ [(SysClose ?d, ?rc)])%list] =>
           exists X, d, t, ra, rb, rc
       end.
  all: rewrite <- !app_assoc; reflexivity.
Qed.

(** *** Short writes *)

Lemma accepted_app (a b : list Event) :
  accepted (a ++ b) = (accepted a ++ accepted b)%list.
Proof. unfold accepted. apply flat_map_app. Qed.

(** The loop of [poll.FD.Write] returns without error only when the
    kernel has accepted, piece by piece, all of what was left of [p]. *)
Lemma pfd_Write_complete fuel fd p :
  forall nn w n w',
    0 <= nn <= Z.of_nat (List.length p) ->
    pfd_Write fuel fd p nn w = Returns (n, None) w' ->
    exists evs, trace w' = (trace w ++ evs)%list
                /\ accepted evs = skipn (Z.to_nat nn) p
                /\ n = Z.of_nat (List.length p).
Proof.
  induction fuel as [| fuel IH]; intros nn w n w' Hnn H.
  - discriminate.
  - simpl in H. unfold unix_Write, bind, call, ret, panic in H.
    set (max := if maxRW <? Z.of_nat (List.length p) - nn
                then nn + maxRW else Z.of_nat (List.length p)) in *.
    assert (Hmax : nn <= max <= Z.of_nat (List.length p)).
    { subst max. unfold maxRW.
      destruct (2 ^ 30 <? Z.of_nat (List.length p) - nn) eqn:E;
        [apply Z.ltb_lt in E | apply Z.ltb_ge in E]; lia. }
    set (piece := firstn (Z.to_nat (max - nn)) (skipn (Z.to_nat nn) p)) in *.
    destruct (syscall (SysWrite fd piece) (kernel w)) as [r k1] eqn:Es.
    simpl in H.
    set (ev := (SysWrite fd piece, r)) in *.
    destruct (0 <? r0 r) eqn:Hpos; simpl in H.
    + apply Z.ltb_lt in Hpos.
      destruct (max - nn <? r0 r) eqn:Hpanic; [discriminate |].
      apply Z.ltb_ge in Hpanic.
      assert (Hacc : accepted [ev]
                     = firstn (Z.to_nat (r0 r)) (skipn (Z.to_nat nn) p)).
      { simpl. rewrite app_nil_r. subst piece. rewrite firstn_firstn.
        f_equal. lia. }
      destruct (nn + r0 r =? Z.of_nat (List.length p)) eqn:Hdone.
      * apply Z.eqb_eq in Hdone. injection H as <- He <-.
        exists [ev]. split; [reflexivity |]. split; [| assumption].
        rewrite Hacc. apply firstn_all2. rewrite length_skipn. lia.
      * destruct (errnoErr (e1 r)) as [e |]; [discriminate |].
        destruct (r0 r =? 0) eqn:Hz; [discriminate |].
        apply Z.eqb_neq in Hdone.
        apply IH in H; [| lia].
        destruct H as (evs & Ht & Ha & Hn).
        exists (ev :: evs). split; [| split; [| exact Hn]].
        -- rewrite Ht. simpl. rewrite <- app_assoc. reflexivity.
        -- change (ev :: evs) with ([ev] ++ evs)%list.
           rewrite accepted_app, Hacc, Ha.
           replace (Z.to_nat (nn + r0 r))
             with (Z.to_nat (r0 r) + Z.to_nat nn)%nat by lia.
           rewrite <- skipn_skipn. apply firstn_skipn.
    + apply Z.ltb_ge in Hpos.
      assert (Hacc : accepted [ev] = []).
      { simpl. replace (Z.to_nat (r0 r)) with 0%nat by lia. reflexivity. }
      destruct (nn =? Z.of_nat (List.length p)) eqn:Hdone.
      * apply Z.eqb_eq in Hdone. injection H as <- He <-.
        exists [ev]. split; [reflexivity |]. split; [| assumption].
        rewrite Hacc. symmetry. apply skipn_all2. lia.
      * destruct (errnoErr (e1 r)) as [e |]; [discriminate |].
        destruct (r0 r =? 0) eqn:Hz; [discriminate |].
        apply IH in H; [| lia].
        destruct H as (evs & Ht & Ha & Hn).
        exists (ev :: evs). split; [| split; [| exact Hn]].
        -- rewrite Ht. simpl. rewrite <- app_assoc. reflexivity.
        -- change (ev :: evs) with ([ev] ++ evs)%list.
           rewrite accepted_app, Hacc, Ha. reflexivity.
Qed.

(** [File.Write], which the named-temp strategy uses, returns without
    error only when the whole payload was accepted. *)
Lemma File_Write_writes_all f b w n w' :
  File_Write f b w = Returns (n, None) w' ->
  exists evs, trace w' = (trace w ++ evs)%list /\ accepted evs = b.
Proof.
  unfold File_Write. destruct f as [f |]; [| discriminate].
  unfold bind. intros H.
  destruct (pfd_Write (S (List.length b)) (Sysfd f) b 0 w)
    as [[m e] w1 | |] eqn:Ep; try discriminate.
  destruct e as [e |]; [discriminate |].
  apply pfd_Write_complete in Ep; [| lia].
  destruct Ep as (evs & Ht & Ha & Hm).
  unfold ret in H. injection H as _ _ <-.
  exists evs. split; [exact Ht | exact Ha].
Qed.

(** *** Where the walk ends *)

Lemma checkDirectory_returns current w :
  exists err w', checkDirectory current w = Returns err w'.
Proof.
  unfold checkDirectory. simpl. unfold_goal.
  repeat run_goal; eauto.
Qed.

Lemma root_is_rooted current : String.eqb current "/" = true -> rooted current = true.
Proof. intros H. apply String.eqb_eq in H. subst. reflexivity. Qed.

(** From a rooted directory the walk ends: it returns after at most one
    check per byte of the path, and one more. *)
Lemma verifyDirectorySecure_rooted_returns fuel :
  forall current verifyAll w,
    rooted current = true ->
    (String.length current < fuel)%nat ->
    exists err w', verifyDirectorySecure fuel current verifyAll w = Returns err w'.
Proof.
  induction fuel as [| fuel IH]; intros current verifyAll w Hr Hlen; [lia |].
  rewrite verifyDirectorySecure_unroll.
  destruct (checkDirectory_returns current w) as (err & w1 & E). rewrite E.
  destruct err as [e |]; [eauto |].
  destruct (negb verifyAll || String.eqb current "/") eqn:Hstop; [eauto |].
  apply orb_false_iff in Hstop. destruct Hstop as [_ Hne].
  apply String.eqb_neq in Hne.
  destruct (Dir_rooted current Hr) as [Hr' Hshort].
  apply IH; [exact Hr' |]. specialize (Hshort Hne). lia.
Qed.

(** From a directory that is not rooted the walk never ends well: the
    textual parent of such a path is never [/]. *)
Lemma verifyDirectorySecure_relative_never_succeeds fuel :
  forall current w w',
    rooted current = false ->
    verifyDirectorySecure fuel current true w <> Returns None w'.
Proof.
  induction fuel as [| fuel IH]; intros current w w' Hr; [discriminate |].
  rewrite verifyDirectorySecure_unroll.
  destruct (checkDirectory current w) as [[e |] w1 | |]; try discriminate.
  simpl. destruct (String.eqb current "/") eqn:E.
  - apply root_is_rooted in E. congruence.
  - apply IH, Dir_relative, Hr.
Qed.

Lemma secureAtomicWriteInternal_relative_never_succeeds
      fuel path data opts w w' :
  VerifyAll opts = true -> rooted path = false ->
  secureAtomicWriteInternal fuel path data opts w <> Returns None w'.
Proof.
  intros Hva Hr.
  assert (Hu : forall w0 w1, ultraParanoidWrite fuel path data opts w0 <> Returns None w1).
  { intros w0 w1. unfold ultraParanoidWrite, bind. rewrite Hva.
    destruct (verifyDirectorySecure fuel (filepath.Dir path) true w0)
      as [[e |] w2 | |] eqn:Ev; try discriminate.
    exfalso. eapply verifyDirectorySecure_relative_never_succeeds; [| exact Ev].
    apply Dir_relative, Hr. }
  assert (Hp : forall w0 w1, paranoidAtomicWrite fuel path data opts w0 <> Returns None w1).
  { intros w0 w1. unfold paranoidAtomicWrite, bind. rewrite Hva.
    destruct (verifyDirectorySecure fuel (filepath.Dir path) true w0)
      as [[e |] w2 | |] eqn:Ev; try discriminate.
    exfalso. eapply verifyDirectorySecure_relative_never_succeeds; [| exact Ev].
    apply Dir_relative, Hr. }
  unfold secureAtomicWriteInternal, bind.
  destruct (ultraParanoidWrite fuel path data opts w) as [[e |] w1 | |] eqn:Eu;
    try discriminate.
  - destruct (fallbackNeeded (Some e)); [apply Hp | discriminate].
  - exfalso. exact (Hu _ _ Eu).
Qed.

End Properties.

(** ** The package on the simulated kernel *)

Section AssocFacts.
Context {A B : Type} (eqb : A -> A -> bool).
Hypothesis eqb_spec : forall a b, eqb a b = true <-> a = b.

Lemma lookup_remove_same (k : A) (l : list (A * B)) :
  Sim.lookup eqb k (Sim.remove eqb k l) = None.
Proof.
  induction l as [| [k' v] l IH]; simpl; [reflexivity |].
  destruct (eqb k k') eqn:E; simpl; [exact IH |].
  rewrite E. exact IH.
Qed.

Lemma lookup_remove_other (k k' : A) (l : list (A * B)) :
  k <> k' -> Sim.lookup eqb k' (Sim.remove eqb k l) = Sim.lookup eqb k' l.
Proof.
  intros Hne. induction l as [| [k2 v] l IH]; simpl; [reflexivity |].
  destruct (eqb k k2) eqn:E; simpl.
  - apply eqb_spec in E. subst k2.
    destruct (eqb k' k) eqn:E'; [| exact IH].
    apply eqb_spec in E'. congruence.
  - rewrite IH. reflexivity.
Qed.

Lemma lookup_cons_same (k : A) (v : B) l : Sim.lookup eqb k ((k, v) :: l) = Some v.
Proof. simpl. rewrite (proj2 (eqb_spec k k) eq_refl). reflexivity. Qed.

Lemma lookup_cons_other (k k' : A) (v : B) l :
  k <> k' -> Sim.lookup eqb k' ((k, v) :: l) = Sim.lookup eqb k' l.
Proof.
  intros Hne. simpl. destruct (eqb k' k) eqn:E; [| reflexivity].
  apply eqb_spec in E. congruence.
Qed.
End AssocFacts.

Lemma entry_eqb_spec (a b : string * string) : Sim.entry_eqb a b = true <-> a = b.
Proof.
  destruct a as [a1 a2], b as [b1 b2]. unfold Sim.entry_eqb. simpl.
  rewrite andb_true_iff, !String.eqb_eq. split.
  - intros [-> ->]. reflexivity.
  - intros [= -> ->]. auto.
Qed.

Lemma fallbackNeeded_In (msg : string) (e : unix.Errno) :
  In e fallbackErrnos -> fallbackNeeded (Some (WrapError msg (ErrnoError e))) = true.
Proof.
  intros H. rewrite fallbackNeeded_WrapError.
  apply existsb_exists. exists e. split; [exact H | apply Z.eqb_refl].
Qed.

Section OnSim.
Import Sim.

(** Opening a directory that is there, in one call or in two. *)
Lemma sim_openDirSecure (s : State) tr path ncd d :
  lookup String.eqb path (dirs s) = Some d ->
  d_isdir d = true -> d_xdev d = false ->
  exists evs,
    openDirSecure path ncd {| kernel := s; trace := tr |}
    = Returns (next_fd s, None)
              {| kernel := set_fds s ((next_fd s, FdDir path) :: fds s) (next_fd s + 1);
                 trace := tr ++ evs |}.
Proof.
  intros Hd Hdir Hx. unfold_goal.
  destruct (has_openat2 s) eqn:Hk.
  - unfold open_dir. rewrite Hd, Hx, Hdir, andb_false_r. simpl.
    eexists. reflexivity.
  - simpl. unfold open_dir. rewrite Hd, Hdir. simpl.
    eexists. rewrite <- app_assoc. reflexivity.
Qed.

(** Where the working directory passes every check, the walk from it
    goes round for ever: its textual parent is itself and never [/]. *)
Lemma verify_dot_never_returns fuel :
  forall (s : State) tr d,
    has_openat2 s = true ->
    lookup String.eqb "." (dirs s) = Some d ->
    safeDir d ->
    verifyDirectorySecure fuel "." true {| kernel := s; trace := tr |} = OutOfFuel.
Proof.
  induction fuel as [| fuel IH]; intros s tr d Hk Hd (Hdir & Hx & Hu & Hm).
  - reflexivity.
  - rewrite verifyDirectorySecure_unroll.
    unfold checkDirectory. simpl. unfold_goal.
    unfold open_dir. rewrite Hk. simpl. unfold open_dir.
    rewrite Hd, Hx, Hdir. simpl.
    unfold sys_fstat. simpl. rewrite Z.eqb_refl, Hd. simpl.
    unfold sys_close. simpl. rewrite Z.eqb_refl. simpl.
    rewrite Hu, Hm. simpl.
    change (filepath.Dir ".") with ".".
    eapply IH; simpl; eauto. repeat split; assumption.
Qed.
(** Without O_TMPFILE the anonymous-temp strategy stops at its second
    call, having changed nothing but the descriptor table. *)
Lemma sim_ultra_without_tmpfile (s : State) tr fuel path data opts d :
  VerifyAll opts = false ->
  lookup String.eqb (filepath.Dir path) (dirs s) = Some d ->
  d_isdir d = true -> d_xdev d = false ->
  tmpfile_errno s <> 0 ->
  exists evs,
    ultraParanoidWrite fuel path data opts {| kernel := s; trace := tr |}
    = Returns (Some (WrapError "openat O_TMPFILE" (ErrnoError (tmpfile_errno s))))
              {| kernel := set_fds s (remove Z.eqb (next_fd s) (fds s)) (next_fd s + 1);
                 trace := tr ++ evs |}.
Proof.
  intros Hva Hd Hdir Hx Hnz. apply Z.eqb_neq in Hnz.
  unfold ultraParanoidWrite. rewrite Hva.
  generalize dependent (filepath.Dir path). intros dir Hd.
  generalize (filepath.Base path). intros base.
  destruct (sim_openDirSecure s tr dir (NoCrossDevice opts) d Hd Hdir Hx)
    as [evs1 E1].
  unfold bind at 1 2. unfold ret at 1. rewrite E1.
  unfold_goal. unfold sys_openat. simpl. rewrite Z.eqb_refl, Hnz. simpl.
  unfold errnoErr. rewrite Hnz. simpl.
  unfold sys_close. simpl. rewrite Z.eqb_refl. simpl.
  eexists. unfold set_fds. simpl. rewrite <- !app_assoc. reflexivity.
Qed.

(** The named-temp strategy meeting a file under its temporary name. *)
Lemma sim_paranoid_collides (s : State) tr fuel path data opts d ino :
  VerifyAll opts = false ->
  lookup String.eqb (filepath.Dir path) (dirs s) = Some d ->
  d_isdir d = true -> d_xdev d = false ->
  lookup entry_eqb (filepath.Dir path, "." ++ filepath.Base path ++ ".tmp") (entries s)
  = Some ino ->
  exists evs,
    paranoidAtomicWrite fuel path data opts {| kernel := s; trace := tr |}
    = Returns (Some (WrapError "openat temp file" (ErrnoError unix.EEXIST)))
              {| kernel := set_fds s (remove Z.eqb (next_fd s) (fds s)) (next_fd s + 1);
                 trace := tr ++ evs |}.
Proof.
  intros Hva Hd Hdir Hx Hstray.
  unfold paranoidAtomicWrite. rewrite Hva.
  generalize dependent (filepath.Dir path). intros dir Hd Hstray.
  generalize dependent (filepath.Base path). intros base Hstray.
  destruct (sim_openDirSecure s tr dir (NoCrossDevice opts) d Hd Hdir Hx)
    as [evs1 E1].
  unfold bind at 1 2. unfold ret at 1. rewrite E1.
  unfold_goal. unfold sys_openat. simpl. rewrite Z.eqb_refl.
  change (has_flag 131265 unix.O_TMPFILE) with false. cbv iota.
  simpl in Hstray. rewrite Hstray. simpl.
  unfold sys_close. simpl. rewrite Z.eqb_refl. simpl.
  eexists. unfold set_fds. simpl. rewrite <- !app_assoc. reflexivity.
Qed.

Lemma sim_fallback_collides (s : State) fuel path data opts d ino :
  VerifyAll opts = false ->
  lookup String.eqb (filepath.Dir path) (dirs s) = Some d ->
  d_isdir d = true -> d_xdev d = false ->
  In (tmpfile_errno s) fallbackErrnos ->
  lookup entry_eqb (filepath.Dir path, "." ++ filepath.Base path ++ ".tmp") (entries s)
  = Some ino ->
  exists w',
    secureAtomicWriteInternal fuel path data opts (boot s)
    = Returns (Some (WrapError "openat temp file" (ErrnoError unix.EEXIST))) w'
    /\ entries (kernel w') = entries s
    /\ inodes (kernel w') = inodes s.
Proof.
  intros Hva Hd Hdir Hx Hin Hstray.
  assert (Hnz : tmpfile_errno s <> 0).
  { intros H0. rewrite H0 in Hin. simpl in Hin.
    unfold unix.EOPNOTSUPP, unix.EINVAL, unix.ENOTDIR, unix.EPERM in Hin.
    intuition discriminate. }
  destruct (sim_ultra_without_tmpfile s [] fuel path data opts d Hva Hd Hdir Hx Hnz)
    as [evs1 E1].
  unfold secureAtomicWriteInternal, bind, boot. rewrite E1.
  rewrite (fallbackNeeded_In _ _ Hin).
  match goal with
  | |- context [paranoidAtomicWrite _ _ _ _ {| kernel := ?k; trace := ?t |}] =>
      destruct (sim_paranoid_collides k t fuel path data opts d ino
                                      Hva Hd Hdir Hx Hstray) as [evs2 E2]
  end.
  rewrite E2. eexists. split; [reflexivity |]. split; reflexivity.
Qed.

(** With O_TMPFILE, and every write accepted whole, the anonymous-temp
    strategy succeeds: the target holds the payload, and no other name
    of the directory and no other inode has changed. *)
Lemma sim_ultra_writes (s : State) tr fuel path data opts d :
  VerifyAll opts = false ->
  lookup String.eqb (filepath.Dir path) (dirs s) = Some d ->
  d_isdir d = true -> d_xdev d = false ->
  tmpfile_errno s = 0 -> write_max s = 0 -> 0 <= next_fd s ->
  exists w',
    ultraParanoidWrite fuel path data opts {| kernel := s; trace := tr |}
    = Returns None w'
    /\ read_file (kernel w') (filepath.Dir path) (filepath.Base path) = Some data
    /\ (forall nm, nm <> filepath.Base path ->
        lookup entry_eqb (filepath.Dir path, nm) (entries (kernel w'))
        = lookup entry_eqb (filepath.Dir path, nm) (entries s))
    /\ (forall ino, ino <> next_ino s ->
        lookup Z.eqb ino (inodes (kernel w')) = lookup Z.eqb ino (inodes s)).
Proof.
  intros Hva Hd Hdir Hx Htmp Hmax Hfd.
  unfold ultraParanoidWrite. rewrite Hva.
  generalize dependent (filepath.Dir path). intros dir Hd.
  generalize (filepath.Base path). intros base.
  destruct (sim_openDirSecure s tr dir (NoCrossDevice opts) d Hd Hdir Hx)
    as [evs1 E1].
  unfold bind at 1 2. unfold ret at 1. rewrite E1.
  assert (Hn1 : (next_fd s =? next_fd s + 1) = false) by (apply Z.eqb_neq; lia).
  assert (Hn2 : (next_fd s <? 0) = false) by (apply Z.ltb_ge; lia).
  assert (Hn3 : (next_fd s + 1 =? next_fd s) = false) by (apply Z.eqb_neq; lia).
  assert (Hdc : forall l : list (Z * FdObj),
             lookup Z.eqb (next_fd s)
                    (remove Z.eqb (next_fd s + 1) (remove Z.eqb (next_fd s) l))
             = None).
  { intros l. rewrite (lookup_remove_other Z.eqb Z.eqb_eq) by lia.
    apply lookup_remove_same. }
  unfold syncDirectory, os_NewFile. rewrite Hn2.
  destruct (Sync opts), ((0 <=? UID opts) || (0 <=? GID opts)),
    (lookup entry_eqb (dir, base) (entries s)) as [old |] eqn:Hold;
    repeat (progress (unfold_goal;
      unfold sys_openat, sys_write, sys_fsync, sys_fchown, sys_unlinkat,
        sys_linkat, sys_close; simpl;
      repeat (rewrite ?Z.eqb_refl, ?Hn1, ?Hn3, ?Htmp, ?Hmax, ?Hold, ?Hdc,
               ?(lookup_remove_same entry_eqb); simpl)));
    (eexists; split; [reflexivity |]);
    (split; [| split]).
  all: try (intros nm Hnm;
            cbn [kernel entries set_fds set_entries set_inodes];
            rewrite (lookup_cons_other entry_eqb entry_eqb_spec) by congruence;
            rewrite ?(lookup_remove_other entry_eqb entry_eqb_spec) by congruence;
            reflexivity).
  all: try (intros ino Hino;
            cbn [kernel inodes set_fds set_entries set_inodes]; unfold update;
            repeat (first [ rewrite (lookup_cons_other Z.eqb Z.eqb_eq) by congruence
                          | rewrite (lookup_remove_other Z.eqb Z.eqb_eq) by congruence ]);
            reflexivity).
  all: unfold read_file;
    cbn [kernel entries inodes set_fds set_entries set_inodes];
    rewrite (lookup_cons_same entry_eqb entry_eqb_spec); unfold update;
    rewrite (lookup_cons_same Z.eqb Z.eqb_eq); simpl;
    rewrite firstn_all; reflexivity.
Qed.

(** *** A file left over under the fallback's temporary name *)


(** *** The walk from a relative path *)

(** C6 fails on the code.  The strict entry point, given a target with
    no directory part, starts the walk at "." and never returns,
    whatever the fuel: on the machine the working directory passes every
    check, and its textual parent is "." again. *)
Theorem strict_write_to_relative_path_never_returns
        (fuel : nat) (data : list byte) (perm : Z) :
  filepath.Dir "app.conf" = "."
  /\ filepath.Dir "." = "."
  /\ SecureAtomicWriteRootStrict fuel "app.conf" data perm (boot machine) = OutOfFuel.
Proof.
  split; [reflexivity |]. split; [reflexivity |].
  unfold SecureAtomicWriteRootStrict.
  apply secureAtomicWriteInternal_verifier_out_of_fuel; [reflexivity |].
  change (filepath.Dir "app.conf") with ".".
  apply (verify_dot_never_returns fuel machine [] (rootDir 0x41ed));
    try reflexivity.
  repeat split.
Qed.

(** *** Short writes *)


(** *** Descriptors *)


(** *** Runs on the machine *)

(** C1 at work: without O_TMPFILE the first attempt fails with
    EOPNOTSUPP, and the call is the named-temp strategy run after it. *)
Lemma dispatcher_falls_back_on_the_machine :
  exists w1,
    ultraParanoidWrite 8 "/tmp/x/other.txt" (bytes "hello world") testOptions
                       (boot machine_without_tmpfile)
    = Returns (Some (WrapError "openat O_TMPFILE" (ErrnoError unix.EOPNOTSUPP))) w1
    /\ unsupportedFeature
         (Some (WrapError "openat O_TMPFILE" (ErrnoError unix.EOPNOTSUPP)))
    /\ secureAtomicWriteInternal 8 "/tmp/x/other.txt" (bytes "hello world")
                                 testOptions (boot machine_without_tmpfile)
       = paranoidAtomicWrite 8 "/tmp/x/other.txt" (bytes "hello world")
                             testOptions w1.
Proof.
  eexists.
  match goal with
  | |- ?A /\ _ => assert (Hfirst : A) by (vm_compute; reflexivity)
  end.
  split; [exact Hfirst |].
  split; [apply fallbackNeeded_iff; reflexivity |].
  apply (proj1 (dispatcher_falls_back_exactly_on_unsupported _ _ _ _ _ _ _ Hfirst)).
  apply fallbackNeeded_iff. reflexivity.
Defined.

(** C2 as stated fails: the parent [/tmp/x] belongs to user 1000 and is
    writable by all without the sticky bit, so the verifier would reject
    it; yet the call with VerifyAll off succeeds, publishes the payload
    and never issues fstat. *)
Lemma immediate_parent_not_verified_counterexample :
  VerifyAll testOptions = false
  /\ result (verifyDirectorySecure 1 "/tmp/x" false (boot machine))
     = Some (Some (ErrorString "directory /tmp/x not owned by root (uid=1000)"))
  /\ result (SecureAtomicWriteWithOptions 8 "/tmp/x/testfile.txt"
               (bytes "hello world") testOptions (boot machine)) = Some None
  /\ calls (SecureAtomicWriteWithOptions 8 "/tmp/x/testfile.txt"
              (bytes "hello world") testOptions (boot machine))
     = [SysOpenat2 unix.AT_FDCWD "/tmp/x" (openDirHow true);
        SysOpenat 3 "" 0x410002 0x180;
        SysWrite 4 (bytes "hello world");
        SysFsync 4;
        SysUnlinkat 3 "testfile.txt" 0;
        SysLinkat 4 "" 3 "testfile.txt" unix.AT_EMPTY_PATH;
        SysFsync 3;
        SysClose 3; SysClose 4; SysClose 3]
  /\ option_map (fun k => read_file k "/tmp/x" "testfile.txt")
                (final (SecureAtomicWriteWithOptions 8 "/tmp/x/testfile.txt"
                          (bytes "hello world") testOptions (boot machine)))
     = Some (Some (bytes "hello world")).
Proof. repeat split; vm_compute; reflexivity. Qed.

(** C2, as amended, on the options of the counterexample. *)
Lemma verification_skipped_on_the_machine :
  VerifyAll testOptions = false
  /\ emits (K := State) noFstat
           (secureAtomicWriteInternal 8 "/tmp/x/testfile.txt"
                                      (bytes "hello world") testOptions).
Proof.
  split; [reflexivity |].
  apply (proj1 (verification_runs_only_with_VerifyAll
                  8 "/tmp/x/testfile.txt" (bytes "hello world") testOptions)).
  reflexivity.
Defined.



(** C5 as stated fails: [/etc/passwd] is not a directory, so the
    verifier fails on it with ENOTDIR; the dispatcher takes that for a
    missing facility and runs the named-temp strategy, which opens the
    path a second time. *)
Lemma verifier_failure_triggers_fallback_counterexample :
  exists w1,
    verifyDirectorySecure 8 (filepath.Dir "/etc/passwd/x") true (boot machine)
    = Returns (Some (WrapError "open directory /etc/passwd"
                               (ErrnoError unix.ENOTDIR))) w1
    /\ fallbackNeeded (Some (WrapError "open directory /etc/passwd"
                                       (ErrnoError unix.ENOTDIR))) = true
    /\ SecureAtomicWriteRootStrict 8 "/etc/passwd/x" (bytes "hello world") 0x1a4
                                   (boot machine)
       <> Returns (Some (WrapError "open directory /etc/passwd"
                                   (ErrnoError unix.ENOTDIR))) w1
    /\ calls (SecureAtomicWriteRootStrict 8 "/etc/passwd/x" (bytes "hello world")
                                          0x1a4 (boot machine))
       = [SysOpenat2 unix.AT_FDCWD "/etc/passwd" (openDirHow true);
          SysOpenat2 unix.AT_FDCWD "/etc/passwd" (openDirHow true)].
Proof.
  eexists. split; [vm_compute; reflexivity |].
  split; [reflexivity |].
  split; [| vm_compute; reflexivity].
  intros H. apply (f_equal (fun r => List.length (trace_of r))) in H.
  vm_compute in H. discriminate.
Qed.

(** C5, as amended, on the run of the counterexample. *)
Lemma verifier_failure_on_the_machine :
  VerifyAll (withVerifyAll (defaultOptions 0x1a4) true) = true
  /\ exists w1,
      verifyDirectorySecure 8 (filepath.Dir "/etc/passwd/x") true (boot machine)
      = Returns (Some (WrapError "open directory /etc/passwd"
                                 (ErrnoError unix.ENOTDIR))) w1
      /\ secureAtomicWriteInternal 8 "/etc/passwd/x" (bytes "hello world")
                                   (withVerifyAll (defaultOptions 0x1a4) true)
                                   (boot machine)
         = paranoidAtomicWrite 8 "/etc/passwd/x" (bytes "hello world")
                               (withVerifyAll (defaultOptions 0x1a4) true) w1.
Proof.
  split; [reflexivity |].
  eexists.
  match goal with
  | |- ?A /\ _ => assert (Hv : A) by (vm_compute; reflexivity)
  end.
  split; [exact Hv |].
  exact (proj2 (proj2 (verifier_failure_surfaces_unless_fallback_errno
                         8 "/etc/passwd/x" (bytes "hello world")
                         (withVerifyAll (defaultOptions 0x1a4) true)
                         _ _ _ eq_refl Hv))
               _ _ eq_refl).
Defined.

(** C9 at work: [/srv/data] is a mount point; with NoCrossDevice off and
    VerifyAll on the call fails with EXDEV at the verifier's first
    directory. *)
Lemma verifier_confinement_on_the_machine :
  VerifyAll unconfinedStrictOptions = true
  /\ NoCrossDevice unconfinedStrictOptions = false
  /\ exists w1,
      secureAtomicWriteInternal 8 "/srv/data/f" (bytes "hello world")
                                unconfinedStrictOptions (boot machine)
      = Returns (Some (WrapError "open directory /srv/data"
                                 (ErrnoError unix.EXDEV))) w1.
Proof.
  split; [reflexivity |]. split; [reflexivity |].
  eexists.
  apply (proj2 (proj2 (verifier_confines_whatever_NoCrossDevice
                         8 "/srv/data/f" (bytes "hello world")
                         unconfinedStrictOptions eq_refl)) "/srv/data").
  vm_compute. reflexivity.
Defined.

End OnSim.

(** ** Further properties, on every kernel

    What the verifier and the two strategies do and never do, read off
    their traces. *)

Section Coverage.
Context {K : Type} {U : Unix K}.
Implicit Types (w : World (K := K)) (opts : WriteOptions).

Lemma closes_app (a b : list Event) : closes (a ++ b) = (closes a ++ closes b)%list.
Proof. apply flat_map_app. Qed.
Lemma opened_app (a b : list Event) : opened (a ++ b) = (opened a ++ opened b)%list.
Proof. apply flat_map_app. Qed.
Lemma dirsOpened_app (a b : list Event) :
  dirsOpened (a ++ b) = (dirsOpened a ++ dirsOpened b)%list.
Proof. apply flat_map_app. Qed.

Ltac trace_tail :=
  cbn [trace]; rewrite <- ?app_assoc; cbn [app].

(** Whenever the ancestor verifier returns, with success or with any
    error, it has closed every descriptor it obtained from a successful
    open, each once and in the order they were opened. *)
Lemma verifyDirectorySecure_balanced fuel :
  forall current verifyAll w a w',
    verifyDirectorySecure fuel current verifyAll w = Returns a w' ->
    exists evs, trace w' = (trace w ++ evs)%list
                /\ map fst (closes evs) = opened evs.
Proof.
  induction fuel as [| fuel IH]; intros current verifyAll w a w' H.
  - discriminate.
  - simpl in H. unfold_prog H.
    repeat run_step H; try discriminate.
    all: try (injection H as <- <-; trace_tail; eexists; split; [reflexivity |];
              unfold closes, opened; simpl;
              repeat match goal with
                     | E : (_ =? 0) = _ |- _ => rewrite E; clear E
                     end; reflexivity).
    all: apply IH in H; destruct H as (evs & Ht & Hb); cbn [trace] in Ht;
      rewrite Ht, <- !app_assoc; eexists; split; [reflexivity |];
      rewrite !closes_app, !opened_app, !map_app, Hb;
      unfold closes, opened; simpl;
      repeat match goal with
             | E : (_ =? 0) = _ |- _ => rewrite E; clear E
             end; reflexivity.
Qed.

Lemma statAccepted_of_checks (fd : Z) (r : Reply) :
  (e1 r =? 0) = true ->
  negb (unix.Uid (st r) =? 0) = false ->
  negb (Z.land (unix.StMode (st r)) unix.S_IWOTH =? 0)
  && (Z.land (unix.StMode (st r)) unix.S_ISVTX =? 0) = false ->
  statAccepted (SysFstat fd, r).
Proof.
  intros He Hu Hm. unfold statAccepted. simpl.
  apply Z.eqb_eq in He. apply negb_false_iff, Z.eqb_eq in Hu.
  split; [exact He |]. split; [exact Hu |].
  apply andb_false_iff in Hm. destruct Hm as [Hm | Hm].
  - left. apply negb_false_iff, Z.eqb_eq in Hm. exact Hm.
  - right. apply Z.eqb_neq in Hm. exact Hm.
Qed.

Ltac accepted_events :=
  repeat first
    [ apply Forall_nil
    | apply Forall_cons;
      [first [exact I | apply statAccepted_of_checks; assumption] |] ].

(** X1. When a full verification succeeds, the directories it opened are
    exactly the start directory and its textual ancestors, in order, the
    last one being [/]; and every fstat it made was answered without error
    with owner root and a mode that is not writable by others or has the
    sticky bit. *)
Theorem verifier_success_means_every_ancestor_accepted fuel :
  forall current w w',
    verifyDirectorySecure fuel current true w = Returns None w' ->
    exists evs, trace w' = (trace w ++ evs)%list
                /\ Forall statAccepted evs
                /\ dirsOpened evs = ancestry fuel current
                /\ last (ancestry fuel current) "" = "/".
Proof.
  induction fuel as [| fuel IH]; intros current w w' H.
  - discriminate.
  - simpl in H. unfold_prog H.
    repeat run_step H; try discriminate.
    all: match goal with
         | E : String.eqb ?c "/" = true |- _ =>
             injection H as <-; rewrite <- !app_assoc;
             eexists; (split; [reflexivity |]);
             apply String.eqb_eq in E; subst c;
             (split; [| split; reflexivity]); accepted_events
         | E : String.eqb ?c "/" = false |- _ =>
             apply IH in H; destruct H as (evs & Ht & Hs & Hd & Hl);
             cbn [trace] in Ht; rewrite Ht, <- !app_assoc;
             eexists; (split; [reflexivity |]);
             cbn [ancestry]; rewrite E; (split; [| split]);
             [ repeat (apply Forall_app; split); try exact Hs; accepted_events
             | rewrite !dirsOpened_app, Hd; reflexivity
             | destruct (ancestry fuel (filepath.Dir c));
               [discriminate | exact Hl] ]
         end.
Qed.
Lemma emits_weaken {A} (P Q : Event -> Prop) (m : M (K := K) A) :
  (forall ev, P ev -> Q ev) -> emits P m -> emits Q m.
Proof.
  intros HPQ Hm w a w' H. destruct (Hm _ _ _ H) as (evs & Ht & HP).
  exists evs. split; [exact Ht |]. eapply Forall_impl; [exact HPQ | exact HP].
Qed.

Ltac emits_more :=
  match goal with
  | |- emits _ (ret _) => apply emits_ret
  | |- emits _ (panic _) => apply emits_panic
  | |- emits _ out_of_fuel => apply emits_out_of_fuel
  | |- emits _ (bind _ _) => apply emits_bind; [| intros ?]
  | |- emits _ (call _) => apply emits_call; intros ?
  | |- emits _ (defer_ _ _) => apply emits_defer
  | |- emits _ (orReturn _ _ _) => apply emits_orReturn
  | |- emits _ (File_Write _ _) => apply emits_File_Write; intros ? ? ?
  | |- emits _ (if ?b then _ else _) => destruct b eqn:?
  | |- emits _ (match ?x with _ => _ end) => destruct x
  | |- emits _ (let _ := _ in _) => cbv zeta
  | |- emits _ ?m =>
      progress unfold unix_Openat2, unix_Open, unix_Openat, unix_Fstat,
        unix_Close, unix_Write, unix_Fsync, unix_Fchown, unix_Unlinkat,
        unix_Linkat, unix_Renameat, File_Sync, File_Close, syncDirectory,
        openDirSecure
  end.

Lemma verifyDirectorySecure_calls fuel current verifyAll :
  emits (K := K) verifierCall (verifyDirectorySecure fuel current verifyAll).
Proof.
  revert current. induction fuel as [| fuel IH]; intros current; simpl.
  - apply emits_out_of_fuel.
  - repeat emits_more; try exact I; apply IH.
Qed.

Lemma verification_calls fuel current (b : bool) :
  emits (K := K) verifierCall
        (if b then verifyDirectorySecure fuel current true else ret None).
Proof. destruct b; [apply verifyDirectorySecure_calls | apply emits_ret]. Qed.

Lemma verifierCall_noFchown ev : verifierCall ev -> noFchown ev.
Proof. destruct ev as [[] r]; unfold verifierCall, noFchown; simpl; tauto. Qed.
Lemma verifierCall_noFsync ev : verifierCall ev -> noFsync ev.
Proof. destruct ev as [[] r]; unfold verifierCall, noFsync; simpl; tauto. Qed.
Lemma verifierCall_keepsEntries ev : verifierCall ev -> keepsEntries ev.
Proof. destruct ev as [[] r]; unfold verifierCall, keepsEntries; simpl; tauto. Qed.

(** X2. When both [UID] and [GID] are negative (the "leave unchanged"
    sentinel), a write issues no fchown(2) at all, whichever strategy or
    strategies run. *)
Theorem no_chown_with_sentinels fuel path data opts :
  UID opts < 0 -> GID opts < 0 ->
  emits (K := K) noFchown (secureAtomicWriteInternal fuel path data opts).
Proof.
  intros Hu Hg.
  assert (Hc : (0 <=? UID opts) || (0 <=? GID opts) = false).
  { apply orb_false_iff. split; apply Z.leb_gt; assumption. }
  unfold secureAtomicWriteInternal, ultraParanoidWrite, paranoidAtomicWrite.
  rewrite Hc.
  repeat first
    [ apply (emits_weaken verifierCall);
      [exact verifierCall_noFchown | apply verification_calls]
    | emits_more ]; exact I.
Qed.

(** X3. With [Sync] off a write issues no fsync(2), neither on the
    temporary file nor on the directory, whichever strategy or strategies
    run. *)
Theorem no_fsync_without_Sync fuel path data opts :
  Sync opts = false ->
  emits (K := K) noFsync (secureAtomicWriteInternal fuel path data opts).
Proof.
  intros Hs.
  unfold secureAtomicWriteInternal, ultraParanoidWrite, paranoidAtomicWrite,
    syncDirectory.
  rewrite Hs.
  repeat first
    [ apply (emits_weaken verifierCall);
      [exact verifierCall_noFsync | apply verification_calls]
    | emits_more ]; exact I.
Qed.

Ltac kept_events :=
  repeat first [ apply Forall_nil | apply Forall_cons; [exact I |] ].

(** X4. When the anonymous-temp strategy fails at any step before the
    publish (verification, opening the directory, creating, writing,
    syncing or chowning the temporary file), it has issued no unlinkat,
    linkat or renameat: no directory entry was touched. *)
Theorem ultraParanoidWrite_failure_before_publish_keeps_entries
        fuel path data opts w err w' :
  ultraParanoidWrite fuel path data opts w = Returns (Some err) w' ->
  (forall e, err <> WrapError "linkat temp file" e) ->
  (forall e, err <> WrapError "sync directory" e) ->
  exists evs, trace w' = (trace w ++ evs)%list /\ Forall keepsEntries evs.
Proof.
  intros H Hlink Hsync. unfold ultraParanoidWrite in H. unfold bind at 1 in H.
  destruct ((if VerifyAll opts
             then verifyDirectorySecure fuel (filepath.Dir path) true
             else ret None) w) as [verr w0 | |] eqn:Ev; try discriminate.
  destruct (verification_calls _ _ _ _ _ _ Ev) as (evs0 & Ht0 & Hv0).
  apply (Forall_impl _ verifierCall_keepsEntries) in Hv0.
  destruct verr as [e |].
  - injection H as <- <-. exists evs0. split; assumption.
  - unfold_prog H.
    repeat run_step H; try discriminate.
    all: injection H as <- <-.
    all: try (exfalso; eapply Hlink; reflexivity).
    all: try (exfalso; eapply Hsync; reflexivity).
    all: cbn [trace]; rewrite Ht0, <- !app_assoc; eexists;
      (split; [reflexivity |]);
      repeat (apply Forall_app; split); try exact Hv0; kept_events.
Qed.

(** X5. When the publish step of the anonymous-temp strategy fails, the
    error carries the errno of linkat(2), and the target name was unlinked
    just before: the run ends with unlinkat of the target, the failed
    linkat, and the two deferred closes.  The old file is not put back. *)
Theorem ultraParanoidWrite_unlinks_target_before_failed_publish
        fuel path data opts w e w' :
  ultraParanoidWrite fuel path data opts w
  = Returns (Some (WrapError "linkat temp file" e)) w' ->
  exists pre dirFd tmpFd ru rl rc rd,
    trace w' = (pre ++ [(SysUnlinkat dirFd (filepath.Base path) 0, ru);
                        (SysLinkat tmpFd "" dirFd (filepath.Base path)
                                   unix.AT_EMPTY_PATH, rl);
                        (SysClose tmpFd, rc);
                        (SysClose dirFd, rd)])%list
    /\ e = ErrnoError (e1 rl) /\ e1 rl <> 0.
Proof.
  intros H. unfold ultraParanoidWrite in H. unfold bind at 1 in H.
  destruct ((if VerifyAll opts
             then verifyDirectorySecure fuel (filepath.Dir path) true
             else ret None) w) as [verr w0 | |] eqn:Ev; try discriminate.
  destruct verr as [e0 |].
  - injection H as -> <-.
    pose proof (verifyDirectorySecure_errors fuel (filepath.Dir path) true w).
    destruct (VerifyAll opts); [| discriminate].
    apply verifyDirectorySecure_errors in Ev. inversion Ev.
  - unfold_prog H.
    repeat run_step H; try discriminate.
    all: injection H as <- <-.
    all: cbn [trace];
      match goal with
      | E : (e1 ?rl =? 0) = false
        |- context [((((?X ++ [(SysUnlinkat ?d _ _, ?ru)]) ++ [(SysLinkat ?t _ _ _ _, ?rl)])
                       ++ [(SysClose ?t, ?rc)]) ++ [(SysClose ?d, ?rd)])%list] =>
          exists X, d, t, ru, rl, rc, rd;
          split; [rewrite <- !app_assoc; reflexivity |];
          split; [reflexivity | apply Z.eqb_neq; exact E]
      end.
Qed.
(** *** Termination *)

Lemma returns_ret {A} (a : A) : returns (K := K) (ret a).
Proof. intros w. unfold ret. eauto. Qed.

Lemma returns_bind {A B} (m : M (K := K) A) (k : A -> M (K := K) B) :
  returns m -> (forall a, returns (k a)) -> returns (bind m k).
Proof.
  intros Hm Hk w. unfold bind. destruct (Hm w) as (a & w1 & ->). apply Hk.
Qed.

Lemma returns_call (s : Syscall) : returns (K := K) (call s).
Proof. intros w. unfold call. destruct (syscall s (kernel w)). eauto. Qed.

Lemma returns_defer {A B} (d : M (K := K) B) (body : M (K := K) A) :
  returns d -> returns body -> returns (defer_ d body).
Proof.
  intros Hd Hb. unfold defer_.
  apply returns_bind; [exact Hb | intros a].
  apply returns_bind; [exact Hd | intros _]. apply returns_ret.
Qed.

Lemma returns_orReturn err msg (k : M (K := K) (option error)) :
  returns k -> returns (orReturn err msg k).
Proof. intros Hk. destruct err; simpl; [apply returns_ret | exact Hk]. Qed.

Ltac returns_step :=
  match goal with
  | |- returns (ret _) => apply returns_ret
  | |- returns (bind _ _) => apply returns_bind; [| intros ?]
  | |- returns (call _) => apply returns_call
  | |- returns (defer_ _ _) => apply returns_defer
  | |- returns (orReturn _ _ _) => apply returns_orReturn
  | |- returns (if ?b then _ else _) => destruct b eqn:?
  | |- returns (match ?x with _ => _ end) => destruct x
  | |- returns (let _ := _ in _) => cbv zeta
  | |- returns ?m =>
      progress unfold unix_Openat2, unix_Open, unix_Openat, unix_Fstat,
        unix_Close, unix_Write, unix_Fsync, unix_Fchown, unix_Unlinkat,
        unix_Linkat, unix_Renameat, File_Sync, File_Close, syncDirectory,
        openDirSecure
  end.

(** On a kernel whose write(2) is sane the loop of [poll.FD.Write] returns
    once it has had one round per byte left, and one more. *)
Lemma pfd_Write_returns (Hsane : saneWrite (K := K)) fuel fd p :
  forall nn,
    0 <= nn <= Z.of_nat (List.length p) ->
    (Z.to_nat (Z.of_nat (List.length p) - nn) < fuel)%nat ->
    returns (K := K) (pfd_Write fuel fd p nn).
Proof.
  induction fuel as [| fuel IH]; intros nn Hnn Hfuel w; [lia |].
  simpl. unfold unix_Write, bind, call, ret, panic.
  set (max := if maxRW <? Z.of_nat (List.length p) - nn
              then nn + maxRW else Z.of_nat (List.length p)).
  assert (Hmax : nn <= max <= Z.of_nat (List.length p)).
  { subst max. unfold maxRW.
    destruct (2 ^ 30 <? Z.of_nat (List.length p) - nn) eqn:E;
      [apply Z.ltb_lt in E | apply Z.ltb_ge in E]; lia. }
  set (piece := firstn (Z.to_nat (max - nn)) (skipn (Z.to_nat nn) p)).
  assert (Hpiece : Z.of_nat (List.length piece) = max - nn).
  { subst piece. rewrite length_firstn, length_skipn. lia. }
  destruct (Hsane fd piece (kernel w)) as [Hle Hge].
  destruct (syscall (SysWrite fd piece) (kernel w)) as [r k1] eqn:Es.
  simpl in Hle, Hge |- *.
  replace (max - nn <? r0 r) with false by (symmetry; apply Z.ltb_ge; lia).
  rewrite andb_false_r.
  match goal with
  | |- context [if ?c =? Z.of_nat (List.length p) then _ else _] =>
      destruct (c =? Z.of_nat (List.length p)) eqn:Hdone; [eauto |]
  end.
  unfold errnoErr. destruct (e1 r =? 0) eqn:He; [| eauto].
  apply Z.eqb_eq in He. specialize (Hge He).
  destruct (r0 r =? 0) eqn:Hz; [eauto |].
  apply Z.eqb_neq in Hz.
  assert (Hpos : (0 <? r0 r) = true) by (apply Z.ltb_lt; lia).
  rewrite Hpos in *. apply Z.eqb_neq in Hdone.
  apply IH; lia.
Qed.

Lemma File_Write_returns (Hsane : saneWrite (K := K)) f b :
  returns (K := K) (File_Write f b).
Proof.
  unfold File_Write. destruct f as [f |]; [| apply returns_ret].
  apply returns_bind.
  - apply pfd_Write_returns; [exact Hsane | lia | lia].
  - intros [n e]. destruct e; apply returns_ret.
Qed.

Lemma verification_returns fuel current (b : bool) :
  rooted current = true -> (String.length current < fuel)%nat ->
  returns (K := K) (if b then verifyDirectorySecure fuel current true else ret None).
Proof.
  intros Hr Hlen. destruct b; [| apply returns_ret].
  intros w. apply verifyDirectorySecure_rooted_returns; assumption.
Qed.

Lemma Dir_rooted_length path :
  rooted path = true ->
  rooted (filepath.Dir path) = true
  /\ (String.length (filepath.Dir path) <= String.length path)%nat.
Proof.
  intros Hr. destruct (Dir_rooted path Hr) as [Hr' Hshort].
  split; [exact Hr' |].
  destruct (string_dec path "/") as [-> | Hne]; [simpl; lia |].
  specialize (Hshort Hne). lia.
Qed.


(** *** Descriptors *)

Lemma onlyWrite_opened evs : Forall onlyWrite evs -> opened evs = [].
Proof.
  induction 1 as [| [[] r] evs Hev _ IH]; simpl in *;
    try contradiction; try reflexivity; exact IH.
Qed.

Lemma onlyWrite_closes evs : Forall onlyWrite evs -> closes evs = [].
Proof.
  induction 1 as [| [[] r] evs Hev _ IH]; simpl in *;
    try contradiction; try reflexivity; exact IH.
Qed.

Lemma verification_balanced fuel current (b : bool) w a w' :
  (if b then verifyDirectorySecure fuel current true else ret None) w
  = Returns a w' ->
  exists evs, trace w' = (trace w ++ evs)%list
              /\ map fst (closes evs) = opened evs.
Proof.
  destruct b.
  - apply verifyDirectorySecure_balanced.
  - intros H. injection H as _ <-. exists []. rewrite app_nil_r. auto.
Qed.

Ltac rewrite_tests :=
  repeat match goal with
         | E : (_ =? 0) = _ |- _ => rewrite E; clear E
         end.

(** X7. Without [Sync] the anonymous-temp strategy closes every
    descriptor it opened exactly once on every path on which it returns:
    those of the verification in the order they were opened, then those of
    the write itself in the reverse order. *)
Theorem ultraParanoidWrite_without_Sync_closes_each_descriptor_once
        fuel path data opts w a w' :
  Sync opts = false ->
  ultraParanoidWrite fuel path data opts w = Returns a w' ->
  exists evsv evsw,
    trace w' = (trace w ++ evsv ++ evsw)%list
    /\ map fst (closes evsv) = opened evsv
    /\ map fst (closes evsw) = rev (opened evsw).
Proof.
  intros Hs H. unfold ultraParanoidWrite in H. unfold bind at 1 in H.
  destruct ((if VerifyAll opts
             then verifyDirectorySecure fuel (filepath.Dir path) true
             else ret None) w) as [verr w0 | |] eqn:Ev; try discriminate.
  destruct (verification_balanced _ _ _ _ _ _ Ev) as (evsv & Ht0 & Hb).
  exists evsv.
  destruct verr as [e |].
  - injection H as _ <-. exists []. rewrite app_nil_r. auto.
  - rewrite Hs in H. unfold_prog H.
    repeat run_step H; try discriminate.
    all: injection H as _ <-; cbn [trace]; rewrite Ht0, <- !app_assoc;
      eexists; (split; [reflexivity |]); (split; [exact Hb |]);
      unfold closes, opened; simpl; rewrite_tests; reflexivity.
Qed.

Ltac run_write H FW :=
  match type of H with
  | context [FW ?f ?b ?w] =>
      let n := fresh "n" in
      let e := fresh "e" in
      let w1 := fresh "w" in
      let Ew := fresh "Ew" in
      destruct (FW f b w) as [[n [e |]] w1 | |] eqn:Ew; simpl in H
  end.

Ltac solve_incl :=
  let x := fresh "x" in
  let Hx := fresh "Hx" in
  intros x Hx; rewrite ?in_app_iff in *; simpl in *; tauto.

Lemma File_Write_onlyWrite f b w a w' :
  File_Write f b w = Returns a w' ->
  exists evs, trace w' = (trace w ++ evs)%list /\ Forall onlyWrite evs.
Proof. apply emits_File_Write. intros fd q r. exact I. Qed.

Lemma ultraParanoidWrite_no_leak fuel path data opts w a w' :
  ultraParanoidWrite fuel path data opts w = Returns a w' ->
  exists evs, trace w' = (trace w ++ evs)%list
              /\ incl (opened evs) (map fst (closes evs)).
Proof.
  intros H. unfold ultraParanoidWrite in H. unfold bind at 1 in H.
  destruct ((if VerifyAll opts
             then verifyDirectorySecure fuel (filepath.Dir path) true
             else ret None) w) as [verr w0 | |] eqn:Ev; try discriminate.
  destruct (verification_balanced _ _ _ _ _ _ Ev) as (evsv & Ht0 & Hb).
  destruct verr as [e |].
  - injection H as _ <-. exists evsv. split; [exact Ht0 |].
    rewrite Hb. apply incl_refl.
  - unfold_prog H.
    repeat run_step H; try discriminate.
    all: injection H as _ <-; cbn [trace]; rewrite Ht0, <- !app_assoc;
      eexists; (split; [reflexivity |]);
      rewrite !opened_app, !closes_app, !map_app, Hb;
      unfold closes, opened; simpl; rewrite_tests; solve_incl.
Qed.

Lemma paranoidAtomicWrite_no_leak fuel path data opts w a w' :
  paranoidAtomicWrite fuel path data opts w = Returns a w' ->
  exists evs, trace w' = (trace w ++ evs)%list
              /\ incl (opened evs) (map fst (closes evs)).
Proof.
  intros H. unfold paranoidAtomicWrite in H. unfold bind at 1 in H.
  destruct ((if VerifyAll opts
             then verifyDirectorySecure fuel (filepath.Dir path) true
             else ret None) w) as [verr w0 | |] eqn:Ev; try discriminate.
  destruct (verification_balanced _ _ _ _ _ _ Ev) as (evsv & Ht0 & Hb).
  destruct verr as [e |].
  - injection H as _ <-. exists evsv. split; [exact Ht0 |].
    rewrite Hb. apply incl_refl.
  - remember (@File_Write K U) as FW eqn:HFW.
    unfold_prog H.
    repeat first [run_step H | run_write H FW]; try discriminate.
    all: injection H as _ <-; cbn [trace].
    all: try (subst FW;
              match goal with
              | Ew : File_Write _ _ _ = Returns _ _ |- _ =>
                  apply File_Write_onlyWrite in Ew;
                  destruct Ew as (evsf & Htf & Hf); cbn [trace] in Htf;
                  rewrite Htf
              end).
    all: rewrite Ht0, <- !app_assoc;
      eexists; (split; [reflexivity |]);
      rewrite !opened_app, !closes_app, !map_app, Hb;
      try rewrite (onlyWrite_opened _ Hf), (onlyWrite_closes _ Hf);
      unfold closes, opened; simpl; rewrite_tests; solve_incl.
Qed.

(** X8. No descriptor leaks: whenever a write returns, with success or
    with an error, after one strategy or both, every descriptor it got from
    a successful open has been closed. *)
Theorem every_opened_descriptor_is_closed fuel path data opts w a w' :
  secureAtomicWriteInternal fuel path data opts w = Returns a w' ->
  exists evs, trace w' = (trace w ++ evs)%list
              /\ incl (opened evs) (map fst (closes evs)).
Proof.
  unfold secureAtomicWriteInternal, bind. intros H.
  destruct (ultraParanoidWrite fuel path data opts w) as [err w1 | |] eqn:Eu;
    try discriminate.
  apply ultraParanoidWrite_no_leak in Eu. destruct Eu as (evs1 & Ht1 & Hi1).
  destruct (fallbackNeeded err).
  - apply paranoidAtomicWrite_no_leak in H. destruct H as (evs2 & Ht2 & Hi2).
    exists (evs1 ++ evs2)%list. split.
    + rewrite Ht2, Ht1, app_assoc. reflexivity.
    + rewrite opened_app, closes_app, map_app.
      apply incl_app; [apply incl_appl | apply incl_appr]; assumption.
  - injection H as _ <-. exists evs1. auto.
Qed.

(** *** The order of a durable publish *)


(** *** The named-temp strategy *)

Lemma emits_File_Write_on P (f : File) b :
  (forall q r, P (SysWrite (Sysfd f) q, r)) ->
  emits (K := K) P (File_Write (Some f) b).
Proof.
  intros HP. unfold File_Write.
  apply emits_bind; [apply emits_pfd_Write; auto | intros [n e]].
  destruct e; apply emits_ret.
Qed.

(** A [File.Write] that reports no error has handed the kernel the whole
    payload, in writes on the file's descriptor and nothing else. *)
Lemma File_Write_success f b w n w' :
  File_Write f b w = Returns (n, None) w' ->
  exists fd nm evs,
    f = Some {| Sysfd := fd; name := nm |}
    /\ trace w' = (trace w ++ evs)%list
    /\ Forall (writesTo fd) evs /\ accepted evs = b.
Proof.
  intros H. destruct f as [[fd nm] |]; [| discriminate].
  destruct (File_Write_writes_all _ _ _ _ _ H) as (evs & Ht & Ha).
  destruct (emits_File_Write_on (writesTo fd) {| Sysfd := fd; name := nm |} b
              (fun q r => eq_refl) _ _ _ H) as (evs' & Ht' & Hw).
  rewrite Ht in Ht'. apply app_inv_head in Ht'. subst evs'.
  exists fd, nm, evs. auto.
Qed.

Lemma verifierCall_avoidsName nm ev : verifierCall ev -> avoidsName nm ev.
Proof. destruct ev as [[] r]; unfold verifierCall, avoidsName; simpl; tauto. Qed.
Lemma verifierCall_createsNothing ev : verifierCall ev -> createsNothing ev.
Proof. destruct ev as [[] r]; unfold verifierCall, createsNothing; simpl; tauto. Qed.
Lemma onlyWrite_avoidsName nm ev : onlyWrite ev -> avoidsName nm ev.
Proof. destruct ev as [[] r]; unfold onlyWrite, avoidsName; simpl; tauto. Qed.

Ltac named_events :=
  repeat first
    [ apply Forall_nil
    | apply Forall_cons;
      [first [exact I | unfold avoidsName; simpl; auto] |] ].

(** X10. When the named-temp strategy fails at any step before the rename
    (verification, opening the directory, creating, writing, syncing,
    chowning or closing the temporary file), no call it made names the
    target: the file under the target name is as it was. *)
Theorem paranoidAtomicWrite_failure_before_rename_avoids_target
        fuel path data opts w err w' :
  paranoidAtomicWrite fuel path data opts w = Returns (Some err) w' ->
  (forall e, err <> WrapError "rename temp file" e) ->
  (forall e, err <> WrapError "sync directory" e) ->
  exists evs, trace w' = (trace w ++ evs)%list
              /\ Forall (avoidsName (filepath.Base path)) evs.
Proof.
  intros H Hren Hsync. unfold paranoidAtomicWrite in H. unfold bind at 1 in H.
  destruct ((if VerifyAll opts
             then verifyDirectorySecure fuel (filepath.Dir path) true
             else ret None) w) as [verr w0 | |] eqn:Ev; try discriminate.
  destruct (verification_calls _ _ _ _ _ _ Ev) as (evsv & Ht0 & Hv).
  apply (Forall_impl _ (verifierCall_avoidsName (filepath.Base path))) in Hv.
  destruct verr as [e |].
  - injection H as <- <-. exists evsv. split; assumption.
  - pose proof (tmpName_neq_baseName (filepath.Base path)) as Hb.
    remember (@File_Write K U) as FW eqn:HFW.
    unfold_prog H.
    repeat first [run_step H | run_write H FW]; try discriminate.
    all: injection H as <- <-.
    all: try (exfalso; eapply Hren; reflexivity).
    all: try (exfalso; eapply Hsync; reflexivity).
    all: cbn [trace].
    all: try (subst FW;
              match goal with
              | Ew : File_Write _ _ _ = Returns _ _ |- _ =>
                  apply File_Write_onlyWrite in Ew;
                  destruct Ew as (evsf & Htf & Hf); cbn [trace] in Htf;
                  rewrite Htf;
                  apply (Forall_impl _ (onlyWrite_avoidsName (filepath.Base path)))
                    in Hf
              end).
    all: rewrite Ht0, <- !app_assoc; eexists; (split; [reflexivity |]);
      repeat (apply Forall_app; split); try assumption; named_events.
Qed.

(** X11. When the rename of the named-temp strategy fails, the error
    carries the errno of renameat(2); the target name was unlinked just
    before, and the deferred cleanup then unlinks the temporary name as
    well: the run ends with unlinkat of the target, the failed renameat,
    close of the temporary descriptor, unlinkat of the temporary name and
    close of the directory.  Neither the old file nor the new data is put
    back under a name. *)
Theorem paranoidAtomicWrite_failed_rename_removes_both_names
        fuel path data opts w e w' :
  paranoidAtomicWrite fuel path data opts w
  = Returns (Some (WrapError "rename temp file" e)) w' ->
  exists pre dirFd tmpFd ru rr rc rt rd,
    trace w'
    = (pre ++ [(SysUnlinkat dirFd (filepath.Base path) 0, ru);
               (SysRenameat dirFd ("." ++ filepath.Base path ++ ".tmp")
                            dirFd (filepath.Base path), rr);
               (SysClose tmpFd, rc);
               (SysUnlinkat dirFd ("." ++ filepath.Base path ++ ".tmp") 0, rt);
               (SysClose dirFd, rd)])%list
    /\ e = ErrnoError (e1 rr) /\ e1 rr <> 0.
Proof.
  intros H. unfold paranoidAtomicWrite in H. unfold bind at 1 in H.
  destruct ((if VerifyAll opts
             then verifyDirectorySecure fuel (filepath.Dir path) true
             else ret None) w) as [verr w0 | |] eqn:Ev; try discriminate.
  destruct verr as [e0 |].
  - injection H as -> <-.
    destruct (VerifyAll opts); [| discriminate].
    apply verifyDirectorySecure_errors in Ev. inversion Ev.
  - remember (@File_Write K U) as FW eqn:HFW.
    unfold_prog H.
    repeat first [run_step H | run_write H FW]; try discriminate.
    all: injection H as <- <-.
    all: cbn [trace];
      match goal with
      | E : (e1 ?rr =? 0) = false
        |- context [(((((?X ++ [(SysUnlinkat ?d _ _, ?ru)])
                         ++ [(SysRenameat _ _ _ _, ?rr)])
                        ++ [(SysClose ?t, ?rc)])
                       ++ [(SysUnlinkat _ _ _, ?rt)])
                      ++ [(SysClose _, ?rd)])%list] =>
          exists X, d, t, ru, rr, rc, rt, rd;
          split; [rewrite <- !app_assoc; reflexivity |];
          split; [reflexivity | apply Z.eqb_neq; exact E]
      end.
Qed.


Lemma onlyWrite_createsNothing ev : onlyWrite ev -> createsNothing ev.
Proof. destruct ev as [[] r]; unfold onlyWrite, createsNothing; simpl; tauto. Qed.

Ltac uncreated_events :=
  repeat first
    [ apply Forall_nil
    | apply Forall_cons;
      [first [exact I
             | unfold createsNothing; simpl; apply Z.eqb_neq; assumption] |] ].

(** X13. The named-temp strategy leaves no temporary file behind on any
    path on which it returns: either no openat(2) it made was answered
    without error, so it created nothing, or the run ends by closing the
    descriptor of the file it created, unlinking the temporary name in the
    directory it was created in, and closing the directory. *)
Theorem paranoidAtomicWrite_unlinks_the_temp_name_it_created
        fuel path data opts w a w' :
  paranoidAtomicWrite fuel path data opts w = Returns a w' ->
  exists evs,
    trace w' = (trace w ++ evs)%list
    /\ (Forall createsNothing evs
        \/ exists pre dirFd flags perm ro mid rc rt rd,
            let tmpName := "." ++ filepath.Base path ++ ".tmp" in
            evs = (pre ++ [(SysOpenat dirFd tmpName flags perm, ro)] ++ mid
                       ++ [(SysClose (r0 ro), rc);
                           (SysUnlinkat dirFd tmpName 0, rt);
                           (SysClose dirFd, rd)])%list
            /\ e1 ro = 0).
Proof.
  intros H. unfold paranoidAtomicWrite in H. unfold bind at 1 in H.
  destruct ((if VerifyAll opts
             then verifyDirectorySecure fuel (filepath.Dir path) true
             else ret None) w) as [verr w0 | |] eqn:Ev; try discriminate.
  destruct (verification_calls _ _ _ _ _ _ Ev) as (evsv & Ht0 & Hv).
  apply (Forall_impl _ verifierCall_createsNothing) in Hv.
  destruct verr as [e |].
  - injection H as _ <-. exists evsv. auto.
  - remember (@File_Write K U) as FW eqn:HFW.
    unfold_prog H.
    repeat first [run_step H | run_write H FW]; try discriminate.
    all: injection H as _ <-; cbn [trace].
    (* the runs that created nothing *)
    all: try (rewrite Ht0, <- !app_assoc; eexists; (split; [reflexivity |]);
              left; repeat (apply Forall_app; split); try exact Hv;
              uncreated_events; fail).
    (* the runs that created the temporary file *)
    all: subst FW;
      match goal with
      | Ew : File_Write _ _ _ = Returns _ _ |- _ =>
          apply File_Write_onlyWrite in Ew;
          destruct Ew as (evsf & Htf & Hf); cbn [trace] in Htf; rewrite Htf
      end.
    all: rewrite Ht0, <- !app_assoc; eexists; (split; [reflexivity |]); right.
    all: match goal with
         | E : (e1 ?ro =? 0) = true, Hv : Forall createsNothing ?V
           |- context [(?V ++ ?P ++ [(SysOpenat ?d _ ?fl ?pm, ?ro)] ++ ?F ++ ?L)%list] =>
             exists (V ++ P)%list, d, fl, pm, ro,
               (F ++ firstn (List.length L - 3) L)%list
         | E : (e1 ?ro =? 0) = true, Hv : Forall createsNothing ?V
           |- context [(?V ++ ?P ++ ?Q ++ [(SysOpenat ?d _ ?fl ?pm, ?ro)] ++ ?F ++ ?L)%list] =>
             exists (V ++ P ++ Q)%list, d, fl, pm, ro,
               (F ++ firstn (List.length L - 3) L)%list
         end.

    all: do 3 eexists; cbv zeta; rewrite <- ?app_assoc; cbn;
      (split; [reflexivity | apply Z.eqb_eq; assumption]).
Qed.

(** *** Paths that are not rooted *)

Lemma verification_of_relative_path fuel path w verr w0 :
  rooted path = false ->
  verifyDirectorySecure fuel (filepath.Dir path) true w = Returns verr w0 ->
  verr <> None
  /\ exists evs, trace w0 = (trace w ++ evs)%list /\ Forall verifierCall evs.
Proof.
  intros Hr Ev. split.
  - intros ->. eapply verifyDirectorySecure_relative_never_succeeds; [| exact Ev].
    apply Dir_relative, Hr.
  - exact (verifyDirectorySecure_calls _ _ _ _ _ _ Ev).
Qed.

(** X14. With ancestor verification on, a target whose path is not rooted
    is never touched: whenever the write returns it returns an error, and
    every call it issued is one of the verifier's (open, fstat and close of
    a directory); nothing was created, written, linked or renamed. *)
Theorem verified_write_to_relative_path_touches_nothing
        fuel path data opts w a w' :
  VerifyAll opts = true -> rooted path = false ->
  secureAtomicWriteInternal fuel path data opts w = Returns a w' ->
  a <> None
  /\ exists evs, trace w' = (trace w ++ evs)%list /\ Forall verifierCall evs.
Proof.
  intros Hva Hr H.
  unfold secureAtomicWriteInternal, bind in H.
  destruct (ultraParanoidWrite fuel path data opts w) as [err w1 | |] eqn:Eu;
    try discriminate.
  unfold ultraParanoidWrite, bind in Eu. rewrite Hva in Eu.
  destruct (verifyDirectorySecure fuel (filepath.Dir path) true w)
    as [verr w0 | |] eqn:Ev; try discriminate.
  destruct (verification_of_relative_path _ _ _ _ _ Hr Ev)
    as (Hne & evs1 & Ht1 & Hv1).
  destruct verr as [e |]; [| congruence].
  injection Eu as <- <-.
  destruct (fallbackNeeded (Some e)).
  - unfold paranoidAtomicWrite, bind in H. rewrite Hva in H.
    destruct (verifyDirectorySecure fuel (filepath.Dir path) true w0)
      as [verr2 w2 | |] eqn:Ev2; try discriminate.
    destruct (verification_of_relative_path _ _ _ _ _ Hr Ev2)
      as (Hne2 & evs2 & Ht2 & Hv2).
    destruct verr2 as [e2 |]; [| congruence].
    injection H as <- <-. split; [discriminate |].
    exists (evs1 ++ evs2)%list. split.
    + rewrite Ht2, Ht1, app_assoc. reflexivity.
    + apply Forall_app. auto.
  - injection H as <- <-. split; [discriminate |]. eauto.
Qed.

(** *** The names handed to the kernel *)

Lemma last_separator_none p : forall i j,
  (filepath.last_separator p i <= j < i)%nat ->
  filepath.IsPathSeparator (filepath.at_ p j) = false.
Proof.
  induction i as [| i IH]; intros j Hj; [lia |].
  simpl in Hj. destruct (filepath.IsPathSeparator (filepath.at_ p i)) eqn:E; [lia |].
  destruct (Nat.eq_dec j i) as [-> | Hne]; [exact E |].
  apply IH. lia.
Qed.

Lemma last_separator_le p : forall i, (filepath.last_separator p i <= i)%nat.
Proof.
  induction i as [| i IH]; simpl; [lia |].
  destruct (filepath.IsPathSeparator (filepath.at_ p i)); lia.
Qed.

Lemma Forall_skipn_at (P : ascii -> Prop) : forall k (l : list ascii),
  (forall j, (k <= j < List.length l)%nat -> P (filepath.at_ l j)) ->
  Forall P (skipn k l).
Proof.
  unfold filepath.at_. induction k as [| k IH]; intros l H.
  - simpl. induction l as [| c l IHl]; constructor.
    + apply (H 0%nat). simpl. lia.
    + apply IHl. intros j Hj. apply (H (S j)). simpl. lia.
  - destruct l as [| c l]; simpl; [constructor |].
    apply IH. intros j Hj. apply (H (S j)). simpl. lia.
Qed.

Lemma list_ascii_of_string_app (a b : string) :
  list_ascii_of_string (a ++ b)
  = (list_ascii_of_string a ++ list_ascii_of_string b)%list.
Proof. induction a as [| c a IH]; simpl; congruence. Qed.

(** [filepath.Base] never returns the empty string, and what it returns is
    [/] or free of separators; the temporary name built from it is then
    free of them as well. *)
Lemma Base_is_a_single_component (path : string) :
  filepath.Base path <> ""
  /\ (filepath.Base path = "/"
      \/ (noSeparator (filepath.Base path)
          /\ noSeparator ("." ++ filepath.Base path ++ ".tmp"))).
Proof.
  assert (Htmp : forall s, noSeparator s -> noSeparator ("." ++ s ++ ".tmp")).
  { intros s Hs. unfold noSeparator.
    change ("." ++ s ++ ".tmp") with (String "." (s ++ ".tmp")).
    simpl. constructor; [reflexivity |].
    rewrite list_ascii_of_string_app. apply Forall_app. split; [exact Hs |].
    simpl. repeat constructor. }
  unfold filepath.Base.
  destruct (list_ascii_of_string path) as [| c l] eqn:E.
  - split; [discriminate |]. right.
    split; [| apply Htmp]; repeat constructor.
  - set (p := c :: l). cbv zeta.
    set (p1 := firstn (filepath.strip_trailing p (List.length p)) p).
    destruct (skipn (filepath.last_separator p1 (List.length p1)) p1) as [| c2 l2] eqn:E2.
    + split; [discriminate |]. left. reflexivity.
    + split; [discriminate |]. right.
      assert (Hs : noSeparator (string_of_list_ascii (c2 :: l2))).
      { unfold noSeparator. rewrite list_ascii_of_string_of_list_ascii, <- E2.
        apply Forall_skipn_at. intros j Hj.
        apply (last_separator_none p1 (List.length p1)). exact Hj. }
      split; [exact Hs | apply Htmp, Hs].
Qed.

Lemma verifierCall_componentCall ev : verifierCall ev -> componentCall ev.
Proof. destruct ev as [[] r]; unfold verifierCall, componentCall; simpl; tauto. Qed.


(** *** What the directory opener returns *)

(** X18. [openDirSecure] returns a nil error exactly when it obtained a
    descriptor: then the descriptor it returns is the one its last call
    opened, and it opened no other.  When it returns an error it opened
    nothing, and the error is the bare, non-zero errno of its last call
    (of openat2, or of open when openat2 answered ENOSYS), so callers can
    classify it with [errors.As]. *)
Theorem openDirSecure_returns_what_it_opened path noCrossDevice
        (w : World (K := K)) fd err w' :
  openDirSecure path noCrossDevice w = Returns (fd, err) w' ->
  exists evs c r,
    trace w' = (trace w ++ evs)%list /\ last evs (c, r) = (c, r) /\ evs <> []
    /\ match err with
       | None => e1 r = 0 /\ fd = r0 r /\ opened evs = [fd]
       | Some e => e = ErrnoError (e1 r) /\ e1 r <> 0 /\ opened evs = []
       end.
Proof.
  intros H. unfold_prog H.
  repeat run_step H; try discriminate.
  all: injection H as <- <- <-; cbn [trace]; rewrite <- ?app_assoc;
    eexists; do 2 eexists; (split; [reflexivity |]);
    (split; [reflexivity |]); (split; [discriminate |]);
    unfold opened; simpl;
    repeat match goal with
           | E : (_ =? 0) = _ |- _ => rewrite ?E; first [apply Z.eqb_eq in E | apply Z.eqb_neq in E]
           end; auto.
Qed.

End Coverage.

(** ** The further properties on the simulated kernel *)

Section CoverageOnSim.
Import Sim.

(** *** The ancestor verifier *)

(** One round of the walk on the simulated kernel: a directory that is
    safe passes, and leaves the directories of the kernel as they were. *)
Lemma sim_checkDirectory_safe (s : State) tr p d :
  has_openat2 s = true ->
  lookup String.eqb p (dirs s) = Some d -> safeDir d ->
  exists s' evs,
    checkDirectory p {| kernel := s; trace := tr |}
    = Returns None {| kernel := s'; trace := tr ++ evs |}
    /\ dirs s' = dirs s /\ has_openat2 s' = true.
Proof.
  intros Hk Hd (Hdir & Hx & Hu & Hm).
  unfold checkDirectory. simpl. unfold_goal.
  unfold open_dir. rewrite Hk. simpl. unfold open_dir.
  rewrite Hd, Hx, Hdir. simpl.
  unfold sys_fstat. simpl. rewrite Z.eqb_refl, Hd. simpl.
  unfold sys_close. simpl. rewrite Z.eqb_refl. simpl.
  rewrite Hu, Hm. simpl.
  do 2 eexists. rewrite <- !app_assoc.
  split; [reflexivity |]. split; [reflexivity | exact Hk].
Qed.

(** Conversely a round that passes has looked at a safe directory. *)
Lemma sim_checkDirectory_passes (s : State) tr p w' :
  has_openat2 s = true ->
  checkDirectory p {| kernel := s; trace := tr |} = Returns None w' ->
  exists d,
    lookup String.eqb p (dirs s) = Some d /\ safeDir d
    /\ dirs (kernel w') = dirs s /\ has_openat2 (kernel w') = true.
Proof.
  intros Hk. unfold checkDirectory. simpl. unfold_goal.
  unfold open_dir. rewrite Hk. simpl. unfold open_dir.
  destruct (lookup String.eqb p (dirs s)) as [d |] eqn:Hd; simpl;
    [| discriminate].
  destruct (d_xdev d) eqn:Hx; simpl; [discriminate |].
  destruct (d_isdir d) eqn:Hdir; simpl; [| discriminate].
  unfold sys_fstat. simpl. rewrite Z.eqb_refl, Hd. simpl.
  unfold sys_close. simpl. rewrite Z.eqb_refl. simpl.
  destruct (negb (d_uid d =? 0)) eqn:Hu; simpl; [discriminate |].
  destruct (negb (Z.land (d_mode d) unix.S_IWOTH =? 0)
            && (Z.land (d_mode d) unix.S_ISVTX =? 0)) eqn:Hm; simpl;
    [discriminate |].
  intros H. injection H as <-. exists d. simpl.
  apply negb_false_iff, Z.eqb_eq in Hu.
  repeat split; auto.
Qed.

(** X15. On the simulated kernel with openat2, a full verification
    succeeds exactly when every directory of the walk, from the start
    directory up its textual ancestors, exists, is a directory reached
    without crossing a mount point, belongs to root and is not writable by
    others unless sticky, and the walk reaches [/] within the fuel. *)
Theorem sim_verifier_accepts_exactly_safe_ancestors fuel :
  forall p (s : State) tr,
    has_openat2 s = true ->
    (exists w', verifyDirectorySecure fuel p true {| kernel := s; trace := tr |}
                = Returns None w')
    <-> (Forall (fun q => exists d, lookup String.eqb q (dirs s) = Some d
                                    /\ safeDir d)
                (ancestry fuel p)
         /\ last (ancestry fuel p) "" = "/").
Proof.
  induction fuel as [| fuel IH]; intros p s tr Hk.
  - simpl. split; [intros [w' H]; discriminate | intros [_ H]; discriminate].
  - rewrite verifyDirectorySecure_unroll. cbn [ancestry negb orb].
    split.
    + intros [w' H].
      destruct (checkDirectory p {| kernel := s; trace := tr |})
        as [[e |] [s1 tr1] | |] eqn:Ec; try discriminate.
      destruct (sim_checkDirectory_passes _ _ _ _ Hk Ec) as (d & Hd & Hs & Hds & Hk1).
      simpl in Hds, Hk1.
      destruct (String.eqb p "/") eqn:Ep.
      * apply String.eqb_eq in Ep. subst p.
        split; [| reflexivity]. constructor; [eauto | constructor].
      * destruct (proj1 (IH (filepath.Dir p) s1 tr1 Hk1)) as [Hall Hlast];
          [eauto |].
        rewrite Hds in Hall. split; [constructor; eauto |].
        destruct (ancestry fuel (filepath.Dir p)); [discriminate | exact Hlast].
    + intros [Hall Hlast]. inversion Hall as [| q qs (d & Hd & Hs) Hrest]; subst.
      destruct (sim_checkDirectory_safe s tr p d Hk Hd Hs)
        as (s1 & evs & Ec & Hds & Hk1).
      rewrite Ec.
      destruct (String.eqb p "/") eqn:Ep; [eauto |].
      apply (IH (filepath.Dir p) s1 (tr ++ evs)%list Hk1).
      rewrite Hds. split; [exact Hrest |].
      destruct (ancestry fuel (filepath.Dir p)); [| exact Hlast].
      simpl in Hlast. subst p. discriminate.
Qed.

Lemma sim_verifier_on_the_machine :
  has_openat2 machine = true
  /\ ((exists w', verifyDirectorySecure 8 "/etc" true
                    {| kernel := machine; trace := [] |} = Returns None w')
      <-> (Forall (fun q => exists d, lookup String.eqb q (dirs machine) = Some d
                                      /\ safeDir d)
                  (ancestry 8 "/etc")
           /\ last (ancestry 8 "/etc") "" = "/")).
Proof.
  split; [reflexivity |].
  apply (sim_verifier_accepts_exactly_safe_ancestors 8 "/etc" machine []).
  reflexivity.
Defined.

(** *** Short writes and the named-temp strategy *)

Lemma remove_remove {B} (k : Z) (l : list (Z * B)) :
  remove Z.eqb k (remove Z.eqb k l) = remove Z.eqb k l.
Proof.
  unfold remove. induction l as [| [k' v] l IH]; simpl; [reflexivity |].
  destruct (k =? k') eqn:E; simpl; [exact IH |].
  rewrite E. simpl. rewrite IH. reflexivity.
Qed.

Lemma update_update {B} (k : Z) (v v' : B) (l : list (Z * B)) :
  update Z.eqb k v (update Z.eqb k v' l) = update Z.eqb k v l.
Proof.
  unfold update. simpl. rewrite Z.eqb_refl. simpl.
  fold (remove Z.eqb k l). fold (remove Z.eqb k (remove Z.eqb k l)).
  rewrite remove_remove. reflexivity.
Qed.

(** On the simulated kernel the loop of [poll.FD.Write] goes on until the
    file holds all that was left of [p], however few bytes one write(2)
    accepts. *)
Lemma sim_pfd_Write fuel fd p ino :
  forall nn (s : State) tr i,
    lookup Z.eqb fd (fds s) = Some (FdFile ino) ->
    lookup Z.eqb ino (inodes s) = Some i ->
    0 <= nn <= Z.of_nat (List.length p) ->
    (Z.to_nat (Z.of_nat (List.length p) - nn) < fuel)%nat ->
    exists evs,
      pfd_Write fuel fd p nn {| kernel := s; trace := tr |}
      = Returns (Z.of_nat (List.length p), None)
                {| kernel := set_inodes s
                               (update Z.eqb ino
                                       (appended i (skipn (Z.to_nat nn) p))
                                       (inodes s))
                               (next_ino s);
                   trace := tr ++ evs |}.
Proof.
  induction fuel as [| fuel IH]; intros nn s tr i Hfd Hino Hnn Hfuel; [lia |].
  simpl. unfold unix_Write, bind, call, ret, panic. simpl.
  set (max := if maxRW <? Z.of_nat (List.length p) - nn
              then nn + maxRW else Z.of_nat (List.length p)).
  assert (Hmax : nn <= max <= Z.of_nat (List.length p)
                 /\ (nn < Z.of_nat (List.length p) -> nn < max)).
  { subst max. unfold maxRW.
    destruct (2 ^ 30 <? Z.of_nat (List.length p) - nn) eqn:E;
      [apply Z.ltb_lt in E | apply Z.ltb_ge in E]; lia. }
  destruct Hmax as [Hmax Hmax'].
  set (rest := skipn (Z.to_nat nn) p).
  set (piece := firstn (Z.to_nat (max - nn)) rest).
  assert (Hrest : Z.of_nat (List.length rest) = Z.of_nat (List.length p) - nn).
  { subst rest. rewrite length_skipn. lia. }
  assert (Hpiece : Z.of_nat (List.length piece) = max - nn).
  { subst piece. rewrite length_firstn. lia. }
  unfold sys_write. rewrite Hfd, Hino.
  set (n := if (0 <? write_max s) && (write_max s <? Z.of_nat (List.length piece))
            then Z.to_nat (write_max s) else List.length piece).
  assert (Hn : (n <= List.length piece)%nat /\ (piece <> [] -> (1 <= n)%nat)).
  { subst n.
    destruct ((0 <? write_max s) && (write_max s <? Z.of_nat (List.length piece)))
      eqn:E.
    - apply andb_true_iff in E. destruct E as [E1 E2].
      apply Z.ltb_lt in E1. apply Z.ltb_lt in E2. split; [lia |]. intros _. lia.
    - split; [lia |]. intros Hne. destruct piece; [congruence | simpl; lia]. }
  destruct Hn as [Hn Hn'].
  assert (Hfirst : firstn n piece = firstn n rest).
  { subst piece. rewrite firstn_firstn. f_equal. lia. }
  simpl.
  replace (max - nn <? Z.of_nat n) with false by (symmetry; apply Z.ltb_ge; lia).
  rewrite andb_false_r.
  destruct (0 <? Z.of_nat n) eqn:Hpos.
  - apply Z.ltb_lt in Hpos.
    destruct (nn + Z.of_nat n =? Z.of_nat (List.length p)) eqn:Hdone.
    + apply Z.eqb_eq in Hdone.
      replace (firstn n piece) with rest
        by (rewrite Hfirst; symmetry; apply firstn_all2; lia).
      eexists. rewrite Hdone. reflexivity.
    + apply Z.eqb_neq in Hdone. unfold errnoErr. simpl.
      replace (Z.of_nat n =? 0) with false by (symmetry; apply Z.eqb_neq; lia).
      edestruct (IH (nn + Z.of_nat n)
                    (set_inodes s (update Z.eqb ino
                                     (appended i (firstn n piece)) (inodes s))
                                (next_ino s))
                    (tr ++ [(SysWrite fd piece, ok (Z.of_nat n))])%list)
        as [evs E].
      * exact Hfd.
      * simpl. unfold update. apply (lookup_cons_same Z.eqb Z.eqb_eq).
      * lia.
      * lia.
      * fold (appended i (firstn n piece)). rewrite E. clear E.
        unfold set_inodes. simpl. rewrite update_update.
        assert (Happ : appended (appended i (firstn n piece))
                                (skipn (Z.to_nat (nn + Z.of_nat n)) p)
                       = appended i rest).
        { unfold appended. simpl. f_equal.
          rewrite <- app_assoc. f_equal. rewrite Hfirst.
          replace (Z.to_nat (nn + Z.of_nat n)) with (n + Z.to_nat nn)%nat by lia.
          rewrite <- skipn_skipn. apply firstn_skipn. }
        rewrite Happ. eexists. rewrite <- app_assoc. reflexivity.
  - apply Z.ltb_ge in Hpos. assert (Hz : n = 0%nat) by lia.
    assert (Hnil : piece = []).
    { destruct piece; [reflexivity |]. exfalso.
      assert (1 <= n)%nat by (apply Hn'; discriminate). lia. }
    assert (Hend : nn = Z.of_nat (List.length p)).
    { rewrite Hnil in Hpiece. simpl in Hpiece. lia. }
    assert (Hrnil : rest = []) by (apply length_zero_iff_nil; lia).
    rewrite <- Hend, Z.eqb_refl, Hfirst, Hrnil, firstn_nil.
    eexists. reflexivity.
Qed.

Lemma sim_File_Write fd nm b ino (s : State) tr i :
  lookup Z.eqb fd (fds s) = Some (FdFile ino) ->
  lookup Z.eqb ino (inodes s) = Some i ->
  exists evs,
    File_Write (Some {| Sysfd := fd; name := nm |}) b {| kernel := s; trace := tr |}
    = Returns (Z.of_nat (List.length b), None)
              {| kernel := set_inodes s
                             (update Z.eqb ino (appended i b) (inodes s))
                             (next_ino s);
                 trace := tr ++ evs |}.
Proof.
  intros Hfd Hino. unfold File_Write, bind. simpl Sysfd.
  destruct (sim_pfd_Write (S (List.length b)) fd b ino 0 s tr i Hfd Hino)
    as [evs E]; [lia | lia |].
  rewrite E. simpl skipn.
  replace (Z.of_nat (List.length b) <? 0) with false
    by (symmetry; apply Z.ltb_ge; lia).
  rewrite Z.eqb_refl. simpl. eexists. reflexivity.
Qed.

Lemma sim_paranoid_writes (s : State) tr fuel path data opts d :
  VerifyAll opts = false ->
  lookup String.eqb (filepath.Dir path) (dirs s) = Some d ->
  d_isdir d = true -> d_xdev d = false ->
  lookup entry_eqb (filepath.Dir path, "." ++ filepath.Base path ++ ".tmp")
         (entries s) = None ->
  0 <= next_fd s ->
  exists w',
    paranoidAtomicWrite fuel path data opts {| kernel := s; trace := tr |}
    = Returns None w'
    /\ read_file (kernel w') (filepath.Dir path) (filepath.Base path) = Some data
    /\ read_file (kernel w') (filepath.Dir path)
                 ("." ++ filepath.Base path ++ ".tmp") = None.
Proof.
  intros Hva Hd Hdir Hx Hstray Hfd.
  unfold paranoidAtomicWrite. rewrite Hva.
  generalize dependent (filepath.Dir path). intros dir Hd Hstray.
  pose proof (tmpName_neq_baseName (filepath.Base path)) as Hbt.
  generalize dependent (filepath.Base path). intros base Hstray Hbt.
  cbv zeta.
  generalize dependent ("." ++ base ++ ".tmp"). intros tmp Hstray Hbt.
  assert (Hbt1 : String.eqb base tmp = false) by (apply String.eqb_neq; exact Hbt).
  assert (Hbt2 : String.eqb tmp base = false)
    by (apply String.eqb_neq; congruence).
  destruct (sim_openDirSecure s tr dir (NoCrossDevice opts) d Hd Hdir Hx)
    as [evs1 E1].
  unfold bind at 1 2. unfold ret at 1. rewrite E1.
  assert (Hn1 : (next_fd s =? next_fd s + 1) = false) by (apply Z.eqb_neq; lia).
  assert (Hn2 : (next_fd s <? 0) = false) by (apply Z.ltb_ge; lia).
  assert (Hn3 : (next_fd s + 1 =? next_fd s) = false) by (apply Z.eqb_neq; lia).
  assert (Hn4 : (next_fd s + 1 <? 0) = false) by (apply Z.ltb_ge; lia).
  assert (He1 : entry_eqb (dir, base) (dir, tmp) = false)
    by (unfold entry_eqb; simpl; rewrite Hbt1; apply andb_false_r).
  assert (He2 : entry_eqb (dir, tmp) (dir, base) = false)
    by (unfold entry_eqb; simpl; rewrite Hbt2; apply andb_false_r).
  assert (He3 : forall nm, entry_eqb (dir, nm) (dir, nm) = true)
    by (intros nm; unfold entry_eqb; simpl; rewrite !String.eqb_refl; reflexivity).
  remember (@File_Write State sim_unix) as FW eqn:HFW.
  repeat (progress (unfold_goal;
    unfold sys_openat, sys_write, sys_fsync, sys_fchown, sys_unlinkat,
      sys_renameat, sys_close; simpl;
    repeat (rewrite ?Z.eqb_refl, ?Hn1, ?Hn2, ?Hn3, ?Hn4, ?Hstray; simpl))).
  subst FW.
  match goal with
  | |- context [File_Write (Some {| Sysfd := ?fd; name := ?nm |}) ?b
                           {| kernel := ?s2; trace := ?tr2 |}] =>
      destruct (sim_File_Write fd nm b (next_ino s) s2 tr2
                  {| i_data := []; i_perm := uint32 (Perm opts);
                     i_uid := 0; i_gid := 0 |}) as [evsw Ew];
      [ simpl; rewrite Z.eqb_refl; reflexivity
      | simpl; rewrite Z.eqb_refl; reflexivity
      | rewrite Ew; clear Ew ]
  end.
  unfold appended. simpl.
  destruct (Sync opts), ((0 <=? UID opts) || (0 <=? GID opts)),
    (lookup entry_eqb (dir, base) (entries s)) as [old |] eqn:Hold;
    repeat (progress (unfold_goal;
      unfold sys_openat, sys_write, sys_fsync, sys_fchown, sys_unlinkat,
        sys_renameat, sys_close, update; simpl;
      repeat (rewrite ?Z.eqb_refl, ?String.eqb_refl, ?Hn1, ?Hn2, ?Hn3, ?Hn4,
               ?Hstray, ?He1, ?He2, ?He3, ?Hold,
               ?(lookup_remove_same entry_eqb),
               ?(lookup_remove_same Z.eqb); simpl;
              rewrite ?(lookup_remove_other Z.eqb Z.eqb_eq) by lia;
              rewrite ?(lookup_remove_other entry_eqb entry_eqb_spec)
                by congruence))).
  all: eexists; (split; [reflexivity |]); unfold read_file;
    cbn [kernel entries inodes set_fds set_entries set_inodes lookup];
    rewrite ?He1, ?He2, ?He3; cbn [lookup option_map];
    rewrite ?Z.eqb_refl; cbn [i_data option_map]; (split; [reflexivity |]);
    rewrite ?(lookup_remove_other entry_eqb entry_eqb_spec) by congruence;
    rewrite ?(lookup_remove_same entry_eqb); reflexivity.
Qed.



(** *** The properties of every kernel, at work on the machine *)

(** The system call the simulated kernel answers write(2) with is sane. *)
Lemma sim_saneWrite : saneWrite (K := State).
Proof.
  intros fd p s. simpl. unfold sys_write.
  destruct (lookup Z.eqb fd (fds s)) as [[d | ino] |]; simpl;
    try (split; [lia | discriminate]).
  destruct (lookup Z.eqb ino (inodes s)) as [i |]; simpl;
    try (split; [lia | discriminate]).
  destruct ((0 <? write_max s) && (write_max s <? Z.of_nat (List.length p))) eqn:E.
  - apply andb_true_iff in E. destruct E as [E1 E2].
    apply Z.ltb_lt in E1. apply Z.ltb_lt in E2. split; lia.
  - split; lia.
Qed.

(** The first conjunct of a statement about the machine is a concrete
    run: it is evaluated, and kept as [Hrun]. *)
Ltac evaluate_run Hrun :=
  match goal with
  | |- ?A /\ _ => assert (Hrun : A) by (vm_compute; reflexivity)
  end;
  split; [exact Hrun |].

Lemma verifier_success_on_the_machine :
  exists w1,
    verifyDirectorySecure 8 "/etc" true (boot machine) = Returns None w1
    /\ exists evs,
        trace w1 = (trace (boot machine) ++ evs)%list
        /\ Forall statAccepted evs
        /\ dirsOpened evs = ancestry 8 "/etc"
        /\ last (ancestry 8 "/etc") "" = "/".
Proof.
  eexists. evaluate_run Hrun.
  exact (verifier_success_means_every_ancestor_accepted 8 _ _ _ Hrun).
Defined.

Lemma no_chown_on_the_machine :
  UID testOptions < 0 /\ GID testOptions < 0
  /\ emits (K := State) noFchown
           (secureAtomicWriteInternal 8 "/tmp/x/testfile.txt"
                                      (bytes "hello world") testOptions).
Proof.
  split; [reflexivity |]. split; [reflexivity |].
  apply (no_chown_with_sentinels 8 "/tmp/x/testfile.txt" (bytes "hello world")
                                 testOptions); reflexivity.
Defined.

Lemma no_fsync_on_the_machine :
  Sync unsyncedOptions = false
  /\ emits (K := State) noFsync
           (secureAtomicWriteInternal 8 "/tmp/x/testfile.txt"
                                      (bytes "hello world") unsyncedOptions).
Proof.
  split; [reflexivity |].
  apply (no_fsync_without_Sync 8 "/tmp/x/testfile.txt" (bytes "hello world")
                               unsyncedOptions).
  reflexivity.
Defined.

Lemma failure_before_publish_on_the_machine :
  exists w1,
    ultraParanoidWrite 8 "/tmp/x/testfile.txt" (bytes "hello world") testOptions
                       (boot machine_without_tmpfile)
    = Returns (Some (WrapError "openat O_TMPFILE" (ErrnoError unix.EOPNOTSUPP))) w1
    /\ exists evs,
        trace w1 = (trace (boot machine_without_tmpfile) ++ evs)%list
        /\ Forall keepsEntries evs.
Proof.
  eexists. evaluate_run Hrun.
  apply (ultraParanoidWrite_failure_before_publish_keeps_entries _ _ _ _ _ _ _ Hrun);
    intros e; discriminate.
Defined.

Lemma failed_publish_on_the_machine :
  exists w1,
    ultraParanoidWrite 8 "/tmp/x/testfile.txt" (bytes "hello world") testOptions
                       (Faulty.boot machine_refusing_linkat)
    = Returns (Some (WrapError "linkat temp file" (ErrnoError unix.ENOENT))) w1
    /\ exists pre dirFd tmpFd ru rl rc rd,
        trace w1
        = (pre ++ [(SysUnlinkat dirFd (filepath.Base "/tmp/x/testfile.txt") 0, ru);
                   (SysLinkat tmpFd "" dirFd (filepath.Base "/tmp/x/testfile.txt")
                              unix.AT_EMPTY_PATH, rl);
                   (SysClose tmpFd, rc);
                   (SysClose dirFd, rd)])%list
        /\ ErrnoError unix.ENOENT = ErrnoError (e1 rl) /\ e1 rl <> 0.
Proof.
  eexists. evaluate_run Hrun.
  exact (ultraParanoidWrite_unlinks_target_before_failed_publish _ _ _ _ _ _ _ Hrun).
Defined.


Lemma closes_once_on_the_machine :
  Sync unsyncedOptions = false
  /\ exists w1,
      ultraParanoidWrite 8 "/tmp/x/testfile.txt" (bytes "hello world")
                         unsyncedOptions (boot machine)
      = Returns None w1
      /\ exists evsv evsw,
          trace w1 = (trace (boot machine) ++ evsv ++ evsw)%list
          /\ map fst (closes evsv) = opened evsv
          /\ map fst (closes evsw) = rev (opened evsw).
Proof.
  split; [reflexivity |].
  eexists. evaluate_run Hrun.
  exact (ultraParanoidWrite_without_Sync_closes_each_descriptor_once
           8 _ _ unsyncedOptions _ _ _ eq_refl Hrun).
Defined.

Lemma no_leak_on_the_machine :
  exists w1,
    secureAtomicWriteInternal 8 "/tmp/x/other.txt" (bytes "hello world")
                              testOptions (boot machine_without_tmpfile)
    = Returns None w1
    /\ exists evs,
        trace w1 = (trace (boot machine_without_tmpfile) ++ evs)%list
        /\ incl (opened evs) (map fst (closes evs)).
Proof.
  eexists. evaluate_run Hrun.
  exact (every_opened_descriptor_is_closed _ _ _ _ _ _ _ Hrun).
Defined.


Lemma failure_before_rename_on_the_machine :
  exists w1,
    paranoidAtomicWrite 8 "/tmp/x/interruptfile.txt" (bytes "final correct content")
                        testOptions (boot machine)
    = Returns (Some (WrapError "openat temp file" (ErrnoError unix.EEXIST))) w1
    /\ exists evs,
        trace w1 = (trace (boot machine) ++ evs)%list
        /\ Forall (avoidsName (filepath.Base "/tmp/x/interruptfile.txt")) evs.
Proof.
  eexists. evaluate_run Hrun.
  apply (paranoidAtomicWrite_failure_before_rename_avoids_target
           _ _ _ _ _ _ _ Hrun);
    intros e; discriminate.
Defined.

Lemma failed_rename_on_the_machine :
  exists w1,
    paranoidAtomicWrite 8 "/tmp/x/testfile.txt" (bytes "hello world") testOptions
                        (Faulty.boot machine_failing_rename)
    = Returns (Some (WrapError "rename temp file" (ErrnoError unix.EIO))) w1
    /\ exists pre dirFd tmpFd ru rr rc rt rd,
        trace w1
        = (pre ++ [(SysUnlinkat dirFd (filepath.Base "/tmp/x/testfile.txt") 0, ru);
                   (SysRenameat dirFd ("." ++ filepath.Base "/tmp/x/testfile.txt" ++ ".tmp")
                                dirFd (filepath.Base "/tmp/x/testfile.txt"), rr);
                   (SysClose tmpFd, rc);
                   (SysUnlinkat dirFd
                                ("." ++ filepath.Base "/tmp/x/testfile.txt" ++ ".tmp")
                                0, rt);
                   (SysClose dirFd, rd)])%list
        /\ ErrnoError unix.EIO = ErrnoError (e1 rr) /\ e1 rr <> 0.
Proof.
  eexists. evaluate_run Hrun.
  exact (paranoidAtomicWrite_failed_rename_removes_both_names
           _ _ _ _ _ _ _ Hrun).
Defined.


Lemma temp_name_unlinked_on_the_machine :
  exists w1,
    paranoidAtomicWrite 8 "/tmp/x/testfile.txt" (bytes "hello world") testOptions
                        (Faulty.boot machine_failing_rename)
    = Returns (Some (WrapError "rename temp file" (ErrnoError unix.EIO))) w1
    /\ exists evs,
        trace w1 = (trace (Faulty.boot machine_failing_rename) ++ evs)%list
        /\ (Forall createsNothing evs
            \/ exists pre dirFd flags perm ro mid rc rt rd,
                let tmpName := "." ++ filepath.Base "/tmp/x/testfile.txt" ++ ".tmp" in
                evs = (pre ++ [(SysOpenat dirFd tmpName flags perm, ro)] ++ mid
                           ++ [(SysClose (r0 ro), rc);
                               (SysUnlinkat dirFd tmpName 0, rt);
                               (SysClose dirFd, rd)])%list
                /\ e1 ro = 0).
Proof.
  eexists. evaluate_run Hrun.
  exact (paranoidAtomicWrite_unlinks_the_temp_name_it_created
           _ _ _ _ _ _ _ Hrun).
Defined.

Lemma relative_path_touches_nothing_on_the_machine :
  VerifyAll (withVerifyAll testOptions true) = true
  /\ rooted "nosuch/file.txt" = false
  /\ exists w1,
      secureAtomicWriteInternal 8 "nosuch/file.txt" (bytes "hello world")
                                (withVerifyAll testOptions true) (boot machine)
      = Returns (Some (WrapError "open directory nosuch" (ErrnoError unix.ENOENT))) w1
      /\ Some (WrapError "open directory nosuch" (ErrnoError unix.ENOENT)) <> None
      /\ exists evs,
          trace w1 = (trace (boot machine) ++ evs)%list /\ Forall verifierCall evs.
Proof.
  split; [reflexivity |]. split; [reflexivity |].
  eexists. evaluate_run Hrun.
  exact (verified_write_to_relative_path_touches_nothing
           8 "nosuch/file.txt" _ (withVerifyAll testOptions true) _ _ _
           eq_refl eq_refl Hrun).
Defined.

Lemma openDirSecure_on_the_machine :
  exists w1,
    openDirSecure "/tmp/x" true (boot machine) = Returns (3, None) w1
    /\ exists evs c r,
        trace w1 = (trace (boot machine) ++ evs)%list
        /\ last evs (c, r) = (c, r) /\ evs <> []
        /\ e1 r = 0 /\ 3 = r0 r /\ opened evs = [3].
Proof.
  eexists. evaluate_run Hrun.
  exact (openDirSecure_returns_what_it_opened _ _ _ _ _ _ Hrun).
Defined.

End CoverageOnSim.
